(** * gograb: a shallow embedding of the download task, its rate limiter
      and the filename derivation, with the properties of the
      specification stated over them.

    Sources embedded here:
    - [ratelimiter.go]: [rateLimiter], [wait];
    - [util.go]: [durationToString], [extractFilename];
    - [main.go] (download task part): [downloadTask], [getBytesRead],
      [start], [getETAString].

    Conventions.  Go's [int64] values are integers of [Z] with the
    two's-complement wrap-around written out ([wrap64]).  A [time.Time] is
    an instant counted in nanoseconds from Go's zero time, a
    [time.Duration] is an [int64] number of nanoseconds.  Everything the task obtains from outside
    (HTTP responses, the file system, the clock, the body stream) is read
    from an explicit [world]; everything it does to the outside or to its
    own shared fields is appended to a trace of [event]s. *)

From Stdlib Require Import ZArith List String Ascii Bool Lia QArith Qround.
From Stdlib Require Import DecimalString.
From Equations Require Import Equations.
Import ListNotations.

Local Open Scope string_scope.
Local Open Scope Z_scope.

(** ** Machine integers *)

Definition max_int64 : Z := 2 ^ 63 - 1.
Definition min_int64 : Z := - 2 ^ 63.

(** Two's-complement reduction of an integer to the [int64] range. *)
Definition wrap64 (z : Z) : Z := (z + 2 ^ 63) mod 2 ^ 64 - 2 ^ 63.

Definition add64 (a b : Z) : Z := wrap64 (a + b).
Definition sub64 (a b : Z) : Z := wrap64 (a - b).
(** Go's [/] on integers truncates towards zero. *)
Definition quot64 (a b : Z) : Z := wrap64 (Z.quot a b).

Definition in_int64 (z : Z) : Prop := min_int64 <= z <= max_int64.

(** ** Time *)

Definition Time := Z.
Definition Duration := Z.

Definition Second : Duration := 1000000000.

(** [t.Sub(u)]: the difference, saturated to the range of [Duration]. *)
Definition Time_Sub (t u : Time) : Duration :=
  Z.max min_int64 (Z.min max_int64 (t - u)).

(** ** ratelimiter.go *)

Record rateLimiter : Type := mkRateLimiter {
  lastReadBytes : Z;
  lastCheckTime : Time;
  limit : Z
}.

(** [wait].  [now] is the clock read on entry, [after] the clock read
    once [time.Sleep] has returned (only read on the sleeping branch).
    The second component is [Some d] when [time.Sleep d] was called. *)
Definition wait (rl : rateLimiter) (currentReadBytes : Z) (now after : Time)
  : rateLimiter * option Duration :=
  let elapsedTime := Time_Sub now (lastCheckTime rl) in
  if elapsedTime <=? Second then
    let bytesReadSinceLastCheck := sub64 currentReadBytes (lastReadBytes rl) in
    if bytesReadSinceLastCheck >=? limit rl then
      let sleepDuration := sub64 Second elapsedTime in
      (mkRateLimiter currentReadBytes after (limit rl), Some sleepDuration)
    else (rl, None)
  else (mkRateLimiter currentReadBytes now (limit rl), None).

(** ** Formatting helpers of util.go *)

(** [%d] of [fmt.Sprintf]. *)
Definition itoa (z : Z) : string := NilZero.string_of_int (Z.to_int z).

Fixpoint spaces (n : nat) : string :=
  match n with
  | O => EmptyString
  | S k => String " " (spaces k)
  end.

(** [%2d] of [fmt.Sprintf]: right-justified in a field of width two. *)
Definition fmt_2d (z : Z) : string :=
  let s := itoa z in spaces (2 - String.length s)%nat ++ s.

(** [durationToString].  Go's [/] and [%] are [Z.quot] and [Z.rem]. *)
Equations? durationToString (seconds : Z) : string by wf (Z.to_nat seconds) lt :=
  durationToString seconds with Z_lt_dec seconds 60 => {
    | left _ => fmt_2d seconds ++ "s"
    | right _ with Z_lt_dec seconds 3600 => {
        | left _ =>
            let minutes := Z.quot seconds 60 in
            let remainder := Z.rem seconds 60 in
            if remainder =? 0 then fmt_2d minutes ++ "m"
            else fmt_2d minutes ++ "m" ++ fmt_2d remainder ++ "s"
        | right _ =>
            let hours := Z.quot seconds 3600 in
            let remainder := Z.rem seconds 3600 in
            if remainder =? 0 then fmt_2d hours ++ "h"
            else fmt_2d hours ++ "h" ++ durationToString remainder } }.
Proof.
  pose proof (Z.rem_bound_pos seconds 3600 ltac:(lia) ltac:(lia)). lia.
Qed.

(** ** Errors and panics *)

(** The [error] values the task can observe.  [errorString] is what
    [errors.New] and [fmt.Errorf] build; [runtimeError] is a
    [runtime.Error] raised by the Go runtime, with the text that its
    [Error] method returns; [externalError] stands for an error returned
    by the network stack or the file system. *)
Inductive error : Type :=
| io_EOF
| io_ErrShortWrite
| ErrMissingFilename
| errorString (msg : string)
| runtimeError (msg : string)
| externalError (msg : string).

(** The value carried by a panic, as the type switch of [start]'s
    deferred function distinguishes it. *)
Inductive panicValue : Type :=
| panicString (s : string)
| panicError (e : error)
| panicOther.

Definition nil_dereference : panicValue :=
  panicError
    (runtimeError
       "runtime error: invalid memory address or nil pointer dereference").
Definition close_of_closed_channel : panicValue :=
  panicError (runtimeError "close of closed channel").
Definition integer_divide_by_zero : panicValue :=
  panicError (runtimeError "runtime error: integer divide by zero").

(** A slice expression out of range; [bounds] is what the runtime reports
    of it: ["[:x] with length y"] for [s[:x]] on a string,
    ["[:x] with capacity y"] for [b[:x]] on a slice, ["[x:y]"] for
    [s[x:]] on a string of length [y], and ["[:x]"] or ["[x:]"] alone
    when [x] is negative. *)
Definition slice_out_of_range (bounds : string) : panicValue :=
  panicError (runtimeError ("runtime error: slice bounds out of range " ++ bounds)).

(** A call into code that may panic instead of returning. *)
Inductive call (A : Type) : Type :=
| Returns (a : A)
| Panics (v : panicValue).
Arguments Returns {A} a.
Arguments Panics {A} v.

(** ** Strings and paths (Go's [strings], [path], [path/filepath]) *)

Definition chars := list ascii.

Definition slash : ascii := "/"%char.
Definition dot : ascii := "."%char.
Definition NUL : ascii := "000"%char.

Definition is_slash (c : ascii) : bool := Ascii.eqb c slash.

Definition chars_eqb (a b : chars) : bool :=
  String.eqb (string_of_list_ascii a) (string_of_list_ascii b).

(** [strings.HasSuffix(s, "/")]. *)
Definition HasSuffix_slash (s : string) : bool :=
  match rev (list_ascii_of_string s) with
  | c :: _ => is_slash c
  | [] => false
  end.

(** [strings.Contains(s, "\x00")]. *)
Definition Contains_NUL (s : string) : bool :=
  existsb (Ascii.eqb NUL) (list_ascii_of_string s).

(** [strings.Contains(s, sub)] for an arbitrary [sub]. *)
Definition Contains (s sub : string) : bool :=
  match String.index 0 sub s with
  | Some _ => true
  | None => false
  end.

(** [strings.Split(s, "/")]: the elements between the slashes, never an
    empty list. *)
Fixpoint split_slash (l : chars) : list chars :=
  match l with
  | [] => [[]]
  | c :: r =>
      if is_slash c then [] :: split_slash r
      else match split_slash r with
           | h :: t => (c :: h) :: t
           | [] => [[c]]
           end
  end.

(** [strings.Join(elems, "/")]. *)
Fixpoint join_slash (elems : list chars) : chars :=
  match elems with
  | [] => []
  | [e] => e
  | e :: rest => (e ++ slash :: join_slash rest)%list
  end.

Definition dotdot : chars := [dot; dot].

(** One path element processed by [path.Clean].  [stack] holds the
    elements kept so far, the last one first.  Empty elements and ["."]
    are dropped; [".."] removes the last kept element when there is one
    to remove, is dropped at the root, and is kept in front of a relative
    path. *)
Definition clean_element (rooted : bool) (stack : list chars) (elem : chars)
  : list chars :=
  match elem with
  | [] => stack
  | _ =>
      if chars_eqb elem [dot] then stack
      else if chars_eqb elem dotdot then
        match stack with
        | top :: below => if chars_eqb top dotdot then elem :: stack else below
        | [] => if rooted then [] else [elem]
        end
      else elem :: stack
  end.

(** [path.Clean] of Go's standard library, by its documented rules:
    multiple slashes become one, ["."] elements disappear, an inner
    [".."] disappears with the element before it, a [".."] at the root
    disappears, a trailing slash disappears, and the empty result is
    ["."]. *)
Definition Clean_chars (p : chars) : chars :=
  match p with
  | [] => [dot]
  | c :: _ =>
      let rooted := is_slash c in
      let kept := rev (fold_left (clean_element rooted) (split_slash p) []) in
      let out := ((if rooted then [slash] else []) ++ join_slash kept)%list in
      match out with
      | [] => [dot]
      | _ => out
      end
  end.

Definition path_Clean (p : string) : string :=
  string_of_list_ascii (Clean_chars (list_ascii_of_string p)).

Fixpoint drop_slashes (l : chars) : chars :=
  match l with
  | c :: r => if is_slash c then drop_slashes r else l
  | [] => []
  end.

Fixpoint take_element (l : chars) : chars :=
  match l with
  | c :: r => if is_slash c then [] else c :: take_element r
  | [] => []
  end.

(** [filepath.Base] on a system whose separator is the slash: trailing
    slashes are stripped, the last element is returned, ["."] for the
    empty path and ["/"] for a path of slashes only. *)
Definition Base_chars (p : chars) : chars :=
  match p with
  | [] => [dot]
  | _ =>
      match take_element (drop_slashes (rev p)) with
      | [] => [slash]
      | e => rev e
      end
  end.

Definition filepath_Base (p : string) : string :=
  string_of_list_ascii (Base_chars (list_ascii_of_string p)).

(** ** HTTP responses *)

Record Response : Type := mkResponse {
  StatusCode : Z;
  ContentLength : Z;
  (** [Header.Get]: the empty string for an absent header. *)
  Header : string -> string;
  (** [Request.URL.Path]. *)
  URLPath : string
}.

Definition StatusOK : Z := 200.
Definition StatusPartialContent : Z := 206.

(** [mime.ParseMediaType]: [None] when it returns an error, otherwise the
    media type and the parameter map, read with Go's map indexing (the
    empty string for an absent key). *)
Definition MediaTypeParser := string -> option (string * (string -> string)).

(** ** util.go: [extractFilename] *)

(** The name before validation: the URL path, replaced by the [filename]
    parameter of a [Content-Disposition] header that parses. *)
Definition derivedName (parse : MediaTypeParser) (response : Response) : string :=
  let filename := URLPath response in
  let contentDisposition := Header response "Content-Disposition" in
  if negb (String.eqb contentDisposition "") then
    match parse contentDisposition with
    | Some (_, params) => params "filename"
    | None => filename
    end
  else filename.

Definition extractFilename (parse : MediaTypeParser) (response : Response)
  : string * option error :=
  let filename := derivedName parse response in
  if String.eqb filename "" || HasSuffix_slash filename || Contains_NUL filename
  then ("", Some ErrMissingFilename)
  else
    let filename := filepath_Base (path_Clean ("/" ++ filename)) in
    if String.eqb filename "" || String.eqb filename "." || String.eqb filename "/"
    then ("", Some ErrMissingFilename)
    else (filename, None).

(** ** main.go: the download task *)

(** [float64] throughput, restricted to its finite values, which are
    rationals; comparison with zero and conversion to [int64] are exact
    on them. *)
Definition float64 := Q.

(** [int64(f)]: the fractional part is discarded.  This is the value of
    the conversion for [f] within [int64]; beyond, Go leaves the result
    to the implementation, and the value here is the mathematical one. *)
Definition int64_of_float (f : float64) : Z := Z.quot (Qnum f) (Z.pos (Qden f)).

Record downloadTask : Type := mkTask {
  (** [completionChan] is only ever closed: its state is whether it was. *)
  completionClosed : bool;
  bytesPerSecond : float64;
  error_ : option error;
  startTime : Time;
  endTime : Time;
  bytesRead : Z;
  totalFileSize : Z;
  fileName : string;
  rateLimiter_ : rateLimiter;
  downloadURL : string;
  isResumable : bool;
  headers : list (string * string)
}.

Definition getBytesRead (dt : downloadTask) : Z := bytesRead dt.

(** [newDownloadTask], from the pair [(limit, url)] that
    [extractRateLimit] returned for the argument. *)
Definition newDownloadTask (limit : Z) (url : string)
  (headers : list (string * string)) : downloadTask :=
  {| completionClosed := false;
     bytesPerSecond := 0%Q;
     error_ := None;
     startTime := 0;
     endTime := 0;
     bytesRead := 0;
     totalFileSize := 0;
     fileName := "";
     rateLimiter_ := mkRateLimiter 0 0 (wrap64 (limit * 1000));
     downloadURL := url;
     isResumable := false;
     headers := headers |}.

(** [getETAString].  The integer division panics on a zero divisor. *)
Definition getETAString (dt : downloadTask) : call string :=
  if (totalFileSize dt =? 0) || Qeq_bool (bytesPerSecond dt) 0 then Returns "N/A"
  else
    let divisor := int64_of_float (bytesPerSecond dt) in
    if divisor =? 0 then Panics integer_divide_by_zero
    else
      let remainingTime :=
        quot64 (sub64 (totalFileSize dt) (getBytesRead dt)) divisor in
      Returns (durationToString remainingTime).

(** *** The outside world of one run *)

Record FileInfo : Type := mkFileInfo {
  IsDir : bool;
  Size : Z
}.

(** One turn of the transfer loop as the outside decides it: what
    [source.Read] returns (count and error) and, when the count is
    positive, what [destination.Write] returns. *)
Record iteration : Type := mkIteration {
  it_read : call (Z * option error);
  it_write : call (Z * option error)
}.

Record world : Type := mkWorld {
  ParseMediaType : MediaTypeParser;
  (** whether [http.NewRequest] produced a request (it returns [nil] for
      a URL it cannot parse) *)
  request_valid : bool;
  (** result of the first [client.Do] *)
  first_response : option Response * option error;
  (** [os.Stat]: [None] when it fails *)
  Stat : string -> option FileInfo;
  (** result of the second [client.Do], sent with a [Range] header *)
  range_response : option Response * option error;
  (** [os.OpenFile] and [os.Create]: the error, if any *)
  OpenFile : string -> option error;
  Create : string -> option error;
  (** the successive turns of the loop; once they are used up [Read]
      reports [io.EOF] *)
  body : list iteration;
  (** [clock k] is what the [k]-th call of [time.Now] returns *)
  clock : nat -> Time
}.

(** What a run does, in the order it does it: the calls to the outside,
    the stores to [error], [bytesRead] and [endTime], and the closing of
    the completion channel. *)
Inductive event : Type :=
| EvDo (range : option string)
| EvBodyClose
| EvStat (name : string)
| EvOpenFile (name : string)
| EvSeekEnd
| EvCreate (name : string)
| EvGoMonitorSpeed
| EvSleep (d : Duration)
| EvRead
| EvWrite (n : Z)
| EvStoreError (e : option error)
| EvStoreBytesRead (v : Z)
| EvAddBytesRead (n : Z)
| EvCloseCompletion
| EvStoreEndTime (t : Time).

(** *** A state monad with early return and panic *)

Inductive result (A : Type) : Type :=
| Normal (a : A)
| Returned
| Panicked (v : panicValue).
Arguments Normal {A} a.
Arguments Returned {A}.
Arguments Panicked {A} v.

Record st : Type := mkSt {
  task : downloadTask;
  (** number of [time.Now] calls made so far *)
  ticks : nat
}.

Definition M (A : Type) : Type := st -> result A * st * list event.

Definition ret {A} (a : A) : M A := fun s => (Normal a, s, []).

Definition bind {A B} (m : M A) (k : A -> M B) : M B := fun s =>
  match m s with
  | (Normal a, s1, evs) =>
      let '(r, s2, evs') := k a s1 in (r, s2, (evs ++ evs')%list)
  | (Returned, s1, evs) => (Returned, s1, evs)
  | (Panicked v, s1, evs) => (Panicked v, s1, evs)
  end.

Notation "x <- m ;; k" := (bind m (fun x => k))
  (at level 61, m at next level, right associativity).
Notation "m ;;; k" := (bind m (fun _ => k))
  (at level 61, right associativity).

(** Go's [return] in the middle of [start]. *)
Definition return_ {A} : M A := fun s => (Returned, s, []).
Definition panic {A} (v : panicValue) : M A := fun s => (Panicked v, s, []).
Definition emit (e : event) : M unit := fun s => (Normal tt, s, [e]).
Definition get : M downloadTask := fun s => (Normal (task s), s, []).
Definition modify (f : downloadTask -> downloadTask) : M unit :=
  fun s => (Normal tt, mkSt (f (task s)) (ticks s), []).
Definition called {A} (c : call A) : M A :=
  match c with
  | Returns a => ret a
  | Panics v => panic v
  end.

(** Field updates. *)
Definition with_closed (dt : downloadTask) : downloadTask :=
  mkTask true (bytesPerSecond dt) (error_ dt) (startTime dt) (endTime dt)
    (bytesRead dt) (totalFileSize dt) (fileName dt) (rateLimiter_ dt)
    (downloadURL dt) (isResumable dt) (headers dt).
Definition with_error (e : option error) (dt : downloadTask) : downloadTask :=
  mkTask (completionClosed dt) (bytesPerSecond dt) e (startTime dt) (endTime dt)
    (bytesRead dt) (totalFileSize dt) (fileName dt) (rateLimiter_ dt)
    (downloadURL dt) (isResumable dt) (headers dt).
Definition with_startTime (t : Time) (dt : downloadTask) : downloadTask :=
  mkTask (completionClosed dt) (bytesPerSecond dt) (error_ dt) t (endTime dt)
    (bytesRead dt) (totalFileSize dt) (fileName dt) (rateLimiter_ dt)
    (downloadURL dt) (isResumable dt) (headers dt).
Definition with_endTime (t : Time) (dt : downloadTask) : downloadTask :=
  mkTask (completionClosed dt) (bytesPerSecond dt) (error_ dt) (startTime dt) t
    (bytesRead dt) (totalFileSize dt) (fileName dt) (rateLimiter_ dt)
    (downloadURL dt) (isResumable dt) (headers dt).
Definition with_bytesRead (v : Z) (dt : downloadTask) : downloadTask :=
  mkTask (completionClosed dt) (bytesPerSecond dt) (error_ dt) (startTime dt)
    (endTime dt) v (totalFileSize dt) (fileName dt) (rateLimiter_ dt)
    (downloadURL dt) (isResumable dt) (headers dt).
Definition with_totalFileSize (v : Z) (dt : downloadTask) : downloadTask :=
  mkTask (completionClosed dt) (bytesPerSecond dt) (error_ dt) (startTime dt)
    (endTime dt) (bytesRead dt) v (fileName dt) (rateLimiter_ dt)
    (downloadURL dt) (isResumable dt) (headers dt).
Definition with_fileName (n : string) (dt : downloadTask) : downloadTask :=
  mkTask (completionClosed dt) (bytesPerSecond dt) (error_ dt) (startTime dt)
    (endTime dt) (bytesRead dt) (totalFileSize dt) n (rateLimiter_ dt)
    (downloadURL dt) (isResumable dt) (headers dt).
Definition with_rateLimiter (rl : rateLimiter) (dt : downloadTask) : downloadTask :=
  mkTask (completionClosed dt) (bytesPerSecond dt) (error_ dt) (startTime dt)
    (endTime dt) (bytesRead dt) (totalFileSize dt) (fileName dt) rl
    (downloadURL dt) (isResumable dt) (headers dt).
Definition with_isResumable (b : bool) (dt : downloadTask) : downloadTask :=
  mkTask (completionClosed dt) (bytesPerSecond dt) (error_ dt) (startTime dt)
    (endTime dt) (bytesRead dt) (totalFileSize dt) (fileName dt)
    (rateLimiter_ dt) (downloadURL dt) b (headers dt).

(** *** [start] *)

Section Run.

Variable w : world.

(** [time.Now()]. *)
Definition Now : M Time := fun s =>
  (Normal (clock w (ticks s)), mkSt (task s) (S (ticks s)), []).

(** [close(dt.completionChan)]; closing a closed channel panics. *)
Definition closeCompletion : M unit :=
  dt <- get ;;
  if completionClosed dt then panic close_of_closed_channel
  else modify with_closed ;;; emit EvCloseCompletion.

(** [dt.error = e]. *)
Definition storeError (e : option error) : M unit :=
  modify (with_error e) ;;; emit (EvStoreError e).

(** [dt.endTime = time.Now()]. *)
Definition storeEndTime : M unit :=
  t <- Now ;; modify (with_endTime t) ;;; emit (EvStoreEndTime t).

(** [client.Do(request)]; [range] is the [Range] header of the request. *)
Definition clientDo (range : option string)
  : M (option Response * option error) :=
  emit (EvDo range) ;;;
  ret (match range with
       | None => first_response w
       | Some _ => range_response w
       end).

(** [response.StatusCode], a nil dereference when [response] is nil. *)
Definition statusCode (response : option Response) : M Z :=
  match response with
  | Some r => ret (StatusCode r)
  | None => panic nil_dereference
  end.

(** The condition
    [err != nil || (StatusCode != StatusOK && StatusCode != StatusPartialContent)]. *)
Definition requestFailed (response : option Response) (err : option error)
  : M bool :=
  match err with
  | Some _ => ret true
  | None =>
      sc <- statusCode response ;;
      ret (negb (sc =? StatusOK) && negb (sc =? StatusPartialContent))
  end.

(** The block run when that condition holds. *)
Definition failRequest {A} (response : option Response) : M A :=
  sc <- statusCode response ;;
  storeError (Some (errorString ("HTTP request failed with status: " ++ itoa sc))) ;;;
  closeCompletion ;;;
  storeEndTime ;;;
  return_.

(** The block run when opening or creating the destination fails. *)
Definition failOpen {A} : M A :=
  closeCompletion ;;;
  storeEndTime ;;;
  return_.

(** [dt.rateLimiter.wait(dt.bytesRead)] under its guard
    [dt.rateLimiter.limit > 0]. *)
Definition limiterWait : M unit := fun s =>
  let dt := task s in
  if limit (rateLimiter_ dt) >? 0 then
    let k := ticks s in
    let '(rl, slept) :=
      wait (rateLimiter_ dt) (bytesRead dt) (clock w k) (clock w (S k)) in
    match slept with
    | Some d => (Normal tt, mkSt (with_rateLimiter rl dt) (S (S k)), [EvSleep d])
    | None => (Normal tt, mkSt (with_rateLimiter rl dt) (S k), [])
    end
  else (Normal tt, s, []).

(** Size of [dt.buffer]. *)
Definition bufferSize : Z := 32 * 1024.

(** The transfer loop; its value is the [err] with which it is left.
    [nRead] and [nWritten] are the locals [bytesRead] and [bytesWritten]. *)
Fixpoint transfer (turns : list iteration) : M (option error) :=
  match turns with
  | [] =>
      limiterWait ;;;
      emit EvRead ;;;
      ret (Some io_EOF)
  | turn :: rest =>
      limiterWait ;;;
      emit EvRead ;;;
      rd <- called (it_read turn) ;;
      let '(nRead, err) := rd in
      if nRead >? 0 then
        (* dt.buffer[:nRead] *)
        (if nRead >? bufferSize
         then panic (slice_out_of_range
                       ("[:" ++ itoa nRead ++ "] with capacity " ++ itoa bufferSize))
         else ret tt) ;;;
        emit (EvWrite nRead) ;;;
        wr <- called (it_write turn) ;;
        let '(nWritten, err) := wr in
        if (match err with Some _ => true | None => false end)
           || negb (nRead =? nWritten)
        then
          storeError (Some io_ErrShortWrite) ;;;
          ret err
        else
          dt <- get ;;
          modify (with_bytesRead (add64 (bytesRead dt) nRead)) ;;;
          emit (EvAddBytesRead nRead) ;;;
          match err with
          | Some _ => ret err
          | None => transfer rest
          end
      else
        match err with
        | Some _ => ret err
        | None => transfer rest
        end
  end.

(** The part of [start] before the loop that deals with an existing
    file.  Its value is [(opened, response)]: whether [destinationFile]
    was set, and the response whose body will be read. *)
Definition resume (fileName : string) (response : Response)
  (fileInfo : option FileInfo) : M (bool * Response) :=
  match fileInfo with
  | Some info =>
      if negb (IsDir info) then
        emit EvBodyClose ;;;
        if Size info =? ContentLength response then
          storeError (Some (errorString "file already downloaded")) ;;;
          closeCompletion ;;;
          storeEndTime ;;;
          return_
        else
          res <- clientDo (Some ("bytes=" ++ itoa (Size info) ++ "-")) ;;
          let '(response, err) := res in
          failed <- requestFailed response err ;;
          if failed then failRequest response
          else
            match response with
            | None => panic nil_dereference
            | Some response =>
                if String.eqb (Header response "Accept-Ranges") "bytes"
                   || negb (String.eqb (Header response "Content-Range") "")
                then
                  emit (EvOpenFile fileName) ;;;
                  match OpenFile w fileName with
                  | Some _ => failOpen
                  | None =>
                      emit EvSeekEnd ;;;
                      modify (with_bytesRead (Size info)) ;;;
                      emit (EvStoreBytesRead (Size info)) ;;;
                      modify (with_isResumable true) ;;;
                      ret (true, response)
                  end
                else ret (false, response)
            end
      else ret (false, response)
  | None => ret (false, response)
  end.

(** The part of [start] before the loop: the request, the file name,
    the existing file, the destination, the expected size, the sampler. *)
Definition prepare : M unit :=
  (* a nil request is dereferenced by request.Header.Set or by client.Do *)
  (if request_valid w then ret tt else panic nil_dereference) ;;;
  res <- clientDo None ;;
  let '(response, err) := res in
  failed <- requestFailed response err ;;
  if failed then failRequest response
  else
    match response with
    | None => panic nil_dereference
    | Some response =>
        let fileName := fst (extractFilename (ParseMediaType w) response) in
        emit (EvStat fileName) ;;;
        let fileInfo := Stat w fileName in
        opened <- resume fileName response fileInfo ;;
        let '(haveFile, response) := opened in
        (if haveFile then ret tt
         else
           emit (EvCreate fileName) ;;;
           match Create w fileName with
           | Some _ => failOpen
           | None => ret tt
           end) ;;;
        (* dt.destination and dt.source are the handles that the loop
           reads and writes through the world *)
        modify (with_fileName fileName) ;;;
        dt <- get ;;
        (if (ContentLength response >? 0) && isResumable dt
            && (match fileInfo with Some _ => true | None => false end)
         then
           modify (with_totalFileSize
                     (add64 (ContentLength response)
                        (match fileInfo with Some info => Size info | None => 0 end)))
         else modify (with_totalFileSize (ContentLength response))) ;;;
        emit EvGoMonitorSpeed ;;;
        t <- Now ;;
        modify (with_startTime t)
    end.

(** The end of [start], once the loop is left with [err]. *)
Definition finish (err : option error) : M unit :=
  storeError err ;;;
  closeCompletion ;;;
  storeEndTime.

(** The body of [start], without its deferred function. *)
Definition start_body : M unit :=
  prepare ;;;
  err <- transfer (body w) ;;
  finish err.

(** The error that the deferred function stores for a recovered panic. *)
Definition recovered (v : panicValue) : error :=
  match v with
  | panicString e => errorString e
  | panicError e => e
  | panicOther => errorString "unknown panic occurred"
  end.

(** The deferred function of [start], run on a panic with value [v]. *)
Definition recoverPanic (v : panicValue) : M unit :=
  storeError (Some (recovered v)) ;;;
  closeCompletion ;;;
  storeEndTime.

(** How a call of [start] ends, what it leaves in the task and what it
    did. *)
Record outcome : Type := mkOutcome {
  (** the panic that leaves [start], if one does *)
  escaped : option panicValue;
  final : downloadTask;
  trace : list event
}.

(** [start]: the body, then the deferred function when the body
    panicked. *)
Definition start (dt : downloadTask) : outcome :=
  match start_body (mkSt dt 0) with
  | (Panicked v, s, evs) =>
      match recoverPanic v s with
      | (Panicked v', s', evs') => mkOutcome (Some v') (task s') (evs ++ evs')
      | (_, s', evs') => mkOutcome None (task s') (evs ++ evs')
      end
  | (_, s, evs) => mkOutcome None (task s) evs
  end.

End Run.

(** ** Sample worlds *)

(** A [200] response without headers for URL path [p], declaring [cl]
    bytes. *)
Definition plainResponse (p : string) (cl : Z) : Response :=
  mkResponse StatusOK cl (fun _ => "") p.

(** A [206] response carrying a [Content-Range] header. *)
Definition partialResponse (p : string) (cl : Z) : Response :=
  mkResponse StatusPartialContent cl
    (fun h => if String.eqb h "Content-Range" then "bytes 10-99/100" else "") p.

Definition noParse : MediaTypeParser := fun _ => None.

(** A turn in which [n] bytes are read and all of them written. *)
Definition chunk (n : Z) : iteration :=
  mkIteration (Returns (n, None)) (Returns (n, None)).

Definition tickingClock (k : nat) : Time := Z.of_nat k * 400000000.

Definition freshTask : downloadTask :=
  newDownloadTask (-1) "http://host/dl/file.zip" [].

(** No file on disk, a server that sends 100 bytes in two reads. *)
Definition freshWorld : world :=
  mkWorld noParse true (Some (plainResponse "/dl/file.zip" 100), None)
    (fun _ => None) (None, None) (fun _ => None) (fun _ => None)
    [chunk 60; chunk 40] tickingClock.

(** Ten bytes on disk, a server that honours the range request. *)
Definition resumeWorld : world :=
  mkWorld noParse true (Some (plainResponse "/dl/file.zip" 100), None)
    (fun _ => Some (mkFileInfo false 10))
    (Some (partialResponse "/dl/file.zip" 90), None)
    (fun _ => None) (fun _ => None)
    [chunk 60; chunk 30] tickingClock.

(** ** The ETA string *)

(** A task as the renderer may find it: [total] expected bytes, [done]
    bytes read, throughput [bps]. *)
Definition observedTask (total done : Z) (bps : float64) : downloadTask :=
  mkTask false bps None 0 0 done total "file.zip" (mkRateLimiter 0 0 (-1000))
    "http://host/dl/file.zip" false [].

(** ** File names *)

(** A name that designates an entry of the directory it is resolved in:
    one path element, neither empty nor a dot name, without NUL. *)
Definition single_component (name : string) : Prop :=
  name <> "" /\ name <> "." /\ name <> ".."
  /\ ~ In slash (list_ascii_of_string name)
  /\ ~ In NUL (list_ascii_of_string name).

Definition real_element (e : chars) : Prop :=
  e <> [] /\ e <> [dot] /\ e <> dotdot.

Definition clean_chars_only (e : chars) : Prop :=
  ~ In slash e /\ ~ In NUL e.

(** ** Reasoning about runs *)

(** [run m s Q]: the computation [m], started in [s], ends in a way
    that satisfies [Q]. *)
Definition run {A} (m : M A) (s : st)
    (Q : result A -> st -> list event -> Prop) : Prop :=
  Q (fst (fst (m s))) (snd (fst (m s))) (snd (m s)).

(** Events that the transfer loop can produce. *)
Definition loop_event (e : event) : bool :=
  match e with
  | EvSleep _ | EvRead | EvWrite _ | EvAddBytesRead _ => true
  | EvStoreError (Some io_ErrShortWrite) => true
  | _ => false
  end.

(** The fields that are settled before the loop: nothing stores to them
    from the loop on. *)
Definition same_settings (a b : downloadTask) : Prop :=
  isResumable b = isResumable a
  /\ totalFileSize b = totalFileSize a
  /\ fileName b = fileName a
  /\ limit (rateLimiter_ b) = limit (rateLimiter_ a).

(** What the loop leaves alone. *)
Definition same_outside_loop (a b : downloadTask) : Prop :=
  completionClosed b = completionClosed a /\ same_settings a b.

Definition loop_frame (s : st) (r : result (option error)) (s' : st)
    (evs : list event) : Prop :=
  r <> Returned
  /\ same_outside_loop (task s) (task s')
  /\ Forall (fun e => loop_event e = true) evs.

(** *** The shape of a trace *)

Definition is_close (e : event) : bool :=
  match e with
  | EvCloseCompletion => true
  | _ => false
  end.

(** Number of times the completion channel was closed. *)
Definition count_close (evs : list event) : nat :=
  List.length (filter is_close evs).

(** The events that follow the first closing of the channel. *)
Fixpoint after_close (evs : list event) : list event :=
  match evs with
  | [] => []
  | EvCloseCompletion :: rest => rest
  | _ :: rest => after_close rest
  end.

(** The first closing of the channel is followed by the store to
    [endTime] and by nothing else. *)
Fixpoint ends_with_close (evs : list event) : bool :=
  match evs with
  | [] => false
  | EvCloseCompletion :: rest =>
      match rest with
      | [EvStoreEndTime _] => true
      | _ => false
      end
  | _ :: rest => ends_with_close rest
  end.

Definition no_close (evs : list event) : Prop :=
  Forall (fun e => is_close e = false) evs.

(** How [prepare] can end: still open with nothing closed, or returned
    with the channel closed as the last thing but one. *)
Definition open_or_done {A} (r : result A) (s' : st) (evs : list event) : Prop :=
  match r with
  | Returned => completionClosed (task s') = true /\ ends_with_close evs = true
  | _ => completionClosed (task s') = false /\ no_close evs
  end.

(** How the body of [start] can end: done, with the channel closed as
    the last thing but one, or panicked with the channel still open. *)
Definition done_or_panicked {A} (r : result A) (s' : st) (evs : list event)
  : Prop :=
  match r with
  | Panicked _ => completionClosed (task s') = false /\ no_close evs
  | _ => completionClosed (task s') = true /\ ends_with_close evs = true
  end.

(** *** The bytes-read counter *)

Definition is_store (e : event) : bool :=
  match e with
  | EvStoreError _ | EvStoreBytesRead _ | EvAddBytesRead _ => true
  | _ => false
  end.

(** The value of the counter after the events [evs], from the value [b]. *)
Fixpoint counter_after (b : Z) (evs : list event) : Z :=
  match evs with
  | [] => b
  | EvStoreBytesRead v :: rest => counter_after v rest
  | EvAddBytesRead n :: rest => counter_after (add64 b n) rest
  | _ :: rest => counter_after b rest
  end.

(** No store to the counter among [evs] takes it below the value it had
    before that store. *)
Fixpoint counter_monotone (b : Z) (evs : list event) : Prop :=
  match evs with
  | [] => True
  | EvStoreBytesRead v :: rest => b <= v /\ counter_monotone v rest
  | EvAddBytesRead n :: rest =>
      b <= add64 b n /\ counter_monotone (add64 b n) rest
  | _ :: rest => counter_monotone b rest
  end.

(** Bytes that a turn of the loop delivers, and that a body delivers. *)
Definition delivered (turn : iteration) : Z :=
  match it_read turn with
  | Returns (n, _) => Z.max 0 n
  | Panics _ => 0
  end.

Fixpoint offered (turns : list iteration) : Z :=
  match turns with
  | [] => 0
  | turn :: rest => delivered turn + offered rest
  end.

(** Sizes on disk are not negative, and a size on disk plus what the body
    delivers stays within [int64]. *)
Definition counter_fits (w : world) : Prop :=
  offered (body w) <= max_int64
  /\ forall name info,
       Stat w name = Some info ->
       0 <= Size info /\ Size info + offered (body w) <= max_int64.

Definition counts (b : Z) (evs : list event) (b' : Z) : Prop :=
  counter_monotone b evs /\ counter_after b evs = b'.

(** Events that can follow [prepare]: those of the loop, and the stores
    and the closing that end a run. *)
Definition closing_event (e : event) : bool :=
  match e with
  | EvStoreError _ | EvCloseCompletion | EvStoreEndTime _ => true
  | _ => loop_event e
  end.

(** The [Range] header sent for an existing file of [size] bytes. *)
Definition rangeHeader (size : Z) : string := "bytes=" ++ itoa size ++ "-".

(** A server without [Content-Length] on the range response. *)
Definition chunkedResumeWorld : world :=
  mkWorld noParse true (Some (plainResponse "/dl/file.zip" 100), None)
    (fun _ => Some (mkFileInfo false 10))
    (Some (partialResponse "/dl/file.zip" (-1)), None)
    (fun _ => None) (fun _ => None)
    [chunk 60; chunk 30] tickingClock.


(** The error stored when the first request is not accepted. *)
Definition requestError (result : option Response * option error) : error :=
  match fst result with
  | Some r =>
      errorString ("HTTP request failed with status: " ++ itoa (StatusCode r))
  | None =>
      runtimeError
        "runtime error: invalid memory address or nil pointer dereference"
  end.

(** The server answers 404. *)
Definition notFoundWorld : world :=
  mkWorld noParse true
    (Some (mkResponse 404 0 (fun _ => "") "/dl/file.zip"), None)
    (fun _ => None) (None, None) (fun _ => None) (fun _ => None)
    [] tickingClock.

(** ** Worlds with failing writes and failing opens *)

(** Five bytes are read and the destination takes three without
    reporting an error. *)
Definition shortWriteWorld : world :=
  mkWorld noParse true (Some (plainResponse "/dl/file.zip" 100), None)
    (fun _ => None) (None, None) (fun _ => None) (fun _ => None)
    [mkIteration (Returns (5, None)) (Returns (3, None))] tickingClock.

(** Five bytes are read and the destination reports a full disk. *)
Definition diskFullWorld : world :=
  mkWorld noParse true (Some (plainResponse "/dl/file.zip" 100), None)
    (fun _ => None) (None, None) (fun _ => None) (fun _ => None)
    [mkIteration (Returns (5, None))
       (Returns (0, Some (externalError "no space left on device")))]
    tickingClock.

(** [os.Create] fails. *)
Definition createFailsWorld : world :=
  mkWorld noParse true (Some (plainResponse "/dl/file.zip" 100), None)
    (fun _ => None) (None, None) (fun _ => None)
    (fun _ => Some (externalError "permission denied"))
    [chunk 60; chunk 40] tickingClock.

(** [os.OpenFile] fails on the existing file. *)
Definition reopenFailsWorld : world :=
  mkWorld noParse true (Some (plainResponse "/dl/file.zip" 100), None)
    (fun _ => Some (mkFileInfo false 10))
    (Some (partialResponse "/dl/file.zip" 90), None)
    (fun _ => Some (externalError "permission denied")) (fun _ => None)
    [chunk 60; chunk 30] tickingClock.

(** *** Names handed to the file system, and seeding of the counter *)

(** The name that a run uses: what [extractFilename] returned for the
    first response. *)
Definition nameUsed (w : world) : string :=
  match fst (first_response w) with
  | Some r => fst (extractFilename (ParseMediaType w) r)
  | None => ""
  end.

(** An event that names a file names [name]. *)
Definition names_only (name : string) (e : event) : Prop :=
  match e with
  | EvStat n | EvOpenFile n | EvCreate n => n = name
  | _ => True
  end.

Definition is_seed (e : event) : bool :=
  match e with
  | EvStoreBytesRead _ => true
  | _ => false
  end.

(** Number of plain stores to the counter. *)
Definition count_seeds (evs : list event) : nat :=
  List.length (filter is_seed evs).

(** *** Increments of the counter and the writes they follow *)

(** The bytes that the stores of a trace add to the counter, in order. *)
Fixpoint adds (evs : list event) : list Z :=
  match evs with
  | [] => []
  | EvAddBytesRead n :: rest => n :: adds rest
  | _ :: rest => adds rest
  end.

(** Every addition of [n] bytes to the counter comes directly after a
    call of [destination.Write] with [n] bytes; [prev] is the event
    before the first of [evs]. *)
Fixpoint adds_follow_writes (prev : option event) (evs : list event) : Prop :=
  match evs with
  | [] => True
  | e :: rest =>
      match e with
      | EvAddBytesRead n => prev = Some (EvWrite n)
      | _ => True
      end
      /\ adds_follow_writes (Some e) rest
  end.

(** The bytes that a turn writes with success: [Read] returned a
    positive count within the buffer, and [Write] returned the same count
    and no error. *)
Definition written_in_full (turn : iteration) : option Z :=
  match it_read turn with
  | Returns (n, _) =>
      if (n >? 0) && negb (n >? bufferSize) then
        match it_write turn with
        | Returns (m, None) => if n =? m then Some n else None
        | _ => None
        end
      else None
  | Panics _ => None
  end.

(** Whether the loop is left in a turn: [Read] panics; or it returns
    data that is not written in full and without error; or it returns no
    data and an error.  After a write in full the loop goes on. *)
Definition leaves_loop (turn : iteration) : bool :=
  match it_read turn with
  | Panics _ => true
  | Returns (n, err) =>
      if n >? 0 then
        match written_in_full turn with
        | Some _ => false
        | None => true
        end
      else
        match err with
        | Some _ => true
        | None => false
        end
  end.

(** The panic raised in a turn, if one is: by [Read], by the slice of
    the buffer, or by [Write]. *)
Definition turn_fault (turn : iteration) : option panicValue :=
  match it_read turn with
  | Panics v => Some v
  | Returns (n, _) =>
      if n >? 0 then
        if n >? bufferSize
        then Some (slice_out_of_range
                     ("[:" ++ itoa n ++ "] with capacity " ++ itoa bufferSize))
        else
          match it_write turn with
          | Panics v => Some v
          | Returns _ => None
          end
      else None
  end.

(** The bytes written with success in the turns of a body, up to the
    turn in which the loop is left. *)
Fixpoint credited (turns : list iteration) : list Z :=
  match turns with
  | [] => []
  | turn :: rest =>
      if leaves_loop turn then []
      else
        match written_in_full turn with
        | Some n => n :: credited rest
        | None => credited rest
        end
  end.

(** ** Runs that need not end *)


Section Stream.

Variable w : world.

(** What the successive turns of the loop meet.  The stream has no last
    turn: the loop ends only in a turn that leaves it. *)
Variable source : nat -> iteration.





End Stream.






(** * Further parts of the program *)

(** ** util.go: [extractRateLimit] and [parseHeaders] *)

Definition colon : ascii := ":"%char.

(** [strings.Split(s, ":")]: the pieces between the colons, never an
    empty list. *)
Fixpoint Split_colon (s : string) : list string :=
  match s with
  | EmptyString => [""]
  | String c r =>
      if Ascii.eqb c colon then "" :: Split_colon r
      else match Split_colon r with
           | h :: t => String c h :: t
           | [] => [String c ""]
           end
  end.

(** [strings.Join(elems, ":")]. *)
Fixpoint Join_colon (elems : list string) : string :=
  match elems with
  | [] => ""
  | [e] => e
  | e :: rest => e ++ ":" ++ Join_colon rest
  end.

(** [strings.Contains(s, ":")]. *)
Fixpoint Contains_colon (s : string) : bool :=
  match s with
  | EmptyString => false
  | String c r => Ascii.eqb c colon || Contains_colon r
  end.

(** [strings.SplitN(s, ":", 2)]: the text before the first colon and the
    text after it, or [s] alone when it has no colon. *)
Fixpoint SplitN2_colon (s : string) : list string :=
  match s with
  | EmptyString => [""]
  | String c r =>
      if Ascii.eqb c colon then [""; r]
      else match SplitN2_colon r with
           | h :: t => String c h :: t
           | [] => [String c ""]
           end
  end.

(** [strconv.ParseInt(s, 0, 0)]: [None] when it returns an error. *)
Definition IntParser := string -> option Z.

(** [extractRateLimit]. *)
Definition extractRateLimit (ParseInt : IntParser) (url : string) : Z * string :=
  let parts := Split_colon url in
  if (2 <=? List.length parts)%nat then
    match ParseInt (nth 0 parts "") with
    | None => (-1, url)
    | Some limit => (limit, Join_colon (tl parts))
    end
  else (-1, url).

(** [newDownloadTask] as [main] calls it, on a command-line argument. *)
Definition newDownloadTaskOf (ParseInt : IntParser) (arg : string)
  (headers : list (string * string)) : downloadTask :=
  let '(limit, url) := extractRateLimit ParseInt arg in
  newDownloadTask limit url headers.

(** A Go [map[string]string], as the list of its entries: one entry per
    key. *)
Definition StringMap := list (string * string).

(** [m[k] = v]. *)
Definition map_set (k v : string) (m : StringMap) : StringMap :=
  (k, v) :: filter (fun kv => negb (String.eqb (fst kv) k)) m.

(** [m[k]], with whether the key is present. *)
Fixpoint map_get (k : string) (m : StringMap) : option string :=
  match m with
  | [] => None
  | (k', v) :: rest => if String.eqb k' k then Some v else map_get k rest
  end.

(** One turn of the loop of [parseHeaders]; [TrimSpace] is
    [strings.TrimSpace]. *)
Definition parseHeader (TrimSpace : string -> string) (headers : StringMap)
  (header : string) : StringMap :=
  if Contains_colon header then
    let parts := SplitN2_colon header in
    map_set (TrimSpace (nth 0 parts "")) (TrimSpace (nth 1 parts "")) headers
  else headers.

(** [parseHeaders]. *)
Definition parseHeaders (TrimSpace : string -> string)
  (headerStrings : list string) : StringMap :=
  fold_left (parseHeader TrimSpace) headerStrings [].

(** A parser of decimal digits, for examples. *)
Definition parseDecimal : IntParser := fun s =>
  match NilZero.int_of_string s with
  | Some i => Some (Z.of_int i)
  | None => None
  end.

(** ** Runs as a whole *)

Definition is_sleep (e : event) : bool :=
  match e with
  | EvSleep _ => true
  | _ => false
  end.

Definition is_write (e : event) : bool :=
  match e with
  | EvWrite _ => true
  | _ => false
  end.

(** The events with which a run ends. *)
Definition end_event (e : event) : bool :=
  match e with
  | EvStoreError _ | EvCloseCompletion | EvStoreEndTime _ => true
  | _ => false
  end.

(** The fields that the end of a run leaves as the loop left them. *)
Definition kept_to_the_end (a b : downloadTask) : Prop :=
  bytesRead b = bytesRead a
  /\ totalFileSize b = totalFileSize a
  /\ fileName b = fileName a
  /\ isResumable b = isResumable a
  /\ rateLimiter_ b = rateLimiter_ a
  /\ startTime b = startTime a.

(** The error that a run leaves, from the way its loop was left. *)
Definition errorAfterLoop (r : result (option error)) : option error :=
  match r with
  | Normal err => err
  | Panicked v => Some (recovered v)
  | Returned => None
  end.

(** A turn of the loop in which a full buffer or less is read without
    error and written in full. *)
Definition full_turn (turn : iteration) : Prop :=
  exists n,
    0 < n <= bufferSize
    /\ it_read turn = Returns (n, None)
    /\ it_write turn = Returns (n, None).

(** What the loop of a task without ceiling leaves alone. *)
Definition quiet_limiter (s : st) (r : result (option error)) (s' : st)
    (evs : list event) : Prop :=
  rateLimiter_ (task s') = rateLimiter_ (task s)
  /\ ticks s' = ticks s
  /\ Forall (fun e => is_sleep e = false) evs.

(** Number of calls of [destination.Write]. *)
Definition count_writes (evs : list event) : nat :=
  List.length (filter is_write evs).

(** Replacing the body of a world. *)
Definition with_body (w : world) (turns : list iteration) : world :=
  mkWorld (ParseMediaType w) (request_valid w) (first_response w) (Stat w)
    (range_response w) (OpenFile w) (Create w) turns (clock w).

(** A turn without the error that its read returned together with data. *)
Definition without_data_error (turn : iteration) : iteration :=
  match it_read turn with
  | Returns (n, Some _) =>
      if n >? 0 then mkIteration (Returns (n, None)) (it_write turn) else turn
  | _ => turn
  end.

(** ** main.go and util.go: the progress display *)

(** The text functions that the display takes from outside: the
    [go-runewidth] and [regexp] packages, Go's conversions between
    strings and runes, and the formatting and arithmetic of [float64]
    values. *)
Record textLib : Type := mkTextLib {
  (** [runewidth.StringWidth] *)
  StringWidth : string -> Z;
  (** [ansiEscapeRegex.FindAllString(input, -1)] *)
  ansiMatches : string -> list string;
  (** [[]rune(s)] and [string(runes)] *)
  runesOf : string -> list Z;
  stringOf : list Z -> string;
  (** [fmt.Sprintf("%6.2f", float64(size)/unit)] *)
  fmt_6_2f : Z -> Z -> string;
  (** [fmt.Sprintf("|%.2f%%", 100*float64(read)/float64(total))] *)
  fmt_percent : Z -> Z -> string;
  (** [int(float64(length) * (float64(read)/float64(total)))] *)
  barProgress : Z -> Z -> Z -> Z
}.

(** [err.Error()]. *)
Definition Error (e : error) : string :=
  match e with
  | io_EOF => "EOF"
  | io_ErrShortWrite => "short write"
  | ErrMissingFilename => "unable to determine filename"
  | errorString msg => msg
  | runtimeError msg => msg
  | externalError msg => msg
  end.

Definition Kilobyte : Z := 1024.
Definition Megabyte : Z := 1024 * Kilobyte.
Definition Gigabyte : Z := 1024 * Megabyte.
Definition Terabyte : Z := 1024 * Gigabyte.

(** [%7d] of [fmt.Sprintf]: right-justified in a field of width seven. *)
Definition fmt_7d (z : Z) : string :=
  let s := itoa z in spaces (7 - String.length s)%nat ++ s.

(** [humanReadableSize]. *)
Definition humanReadableSize (lib : textLib) (size : Z) : string :=
  if size >=? Terabyte then fmt_6_2f lib size Terabyte ++ "TB"
  else if size >=? Gigabyte then fmt_6_2f lib size Gigabyte ++ "GB"
  else if size >=? Megabyte then fmt_6_2f lib size Megabyte ++ "MB"
  else if size >=? Kilobyte then fmt_6_2f lib size Kilobyte ++ "KB"
  else fmt_7d size ++ "B".

(** [visibleWidth]: the width of the string less the width of every ANSI
    escape sequence found in it. *)
Definition visibleWidth (lib : textLib) (input : string) : Z :=
  fold_left (fun width m => sub64 width (StringWidth lib m))
    (ansiMatches lib input) (StringWidth lib input).

(** [strings.Repeat(s, count)] for a one-character [s]; the callers
    below never pass a negative count. *)
Fixpoint repeat_char (c : ascii) (n : nat) : string :=
  match n with
  | O => EmptyString
  | S k => String c (repeat_char c k)
  end.

Definition Repeat (c : ascii) (count : Z) : string :=
  repeat_char c (Z.to_nat count).

Definition len (s : string) : Z := Z.of_nat (String.length s).

(** [s[:n]], which panics outside the string. *)
Definition slice_to (s : string) (n : Z) : call string :=
  if (0 <=? n) && (n <=? len s) then Returns (substring 0 (Z.to_nat n) s)
  else if n <? 0 then Panics (slice_out_of_range ("[:" ++ itoa n ++ "]"))
  else Panics (slice_out_of_range
                 ("[:" ++ itoa n ++ "] with length " ++ itoa (len s))).

(** [s[n:]], which panics outside the string. *)
Definition slice_from (s : string) (n : Z) : call string :=
  if (0 <=? n) && (n <=? len s)
  then Returns (substring (Z.to_nat n) (String.length s - Z.to_nat n) s)
  else if n <? 0 then Panics (slice_out_of_range ("[" ++ itoa n ++ ":]"))
  else Panics (slice_out_of_range
                 ("[" ++ itoa n ++ ":" ++ itoa (len s) ++ "]")).

Definition call_bind {A B} (c : call A) (k : A -> call B) : call B :=
  match c with
  | Returns a => k a
  | Panics v => Panics v
  end.

(** The loop of [truncateFileName] over the runes of the name: [k] is
    the number of runes still kept.  Dropping a rune from no rune is the
    slice [runes[:-1]], out of range. *)
Fixpoint truncateRunes (lib : textLib) (runes : list Z) (maxWidth : Z)
  (k : nat) : call string :=
  let display := stringOf lib (firstn k runes) in
  if visibleWidth lib display <=? maxWidth then
    Returns (display ++ Repeat " " (sub64 maxWidth (visibleWidth lib display)))
  else
    match k with
    | O => Panics (slice_out_of_range "[:-1]")
    | S k' => truncateRunes lib runes maxWidth k'
    end.

(** [truncateFileName]. *)
Definition truncateFileName (lib : textLib) (fileName : string) (maxWidth : Z)
  : call string :=
  if len fileName <? maxWidth then
    Returns (fileName ++ Repeat " " (sub64 maxWidth (len fileName)))
  else
    let runes := runesOf lib fileName in
    if negb (Z.of_nat (List.length runes) =? len fileName) then
      truncateRunes lib runes maxWidth (List.length runes)
    else slice_to fileName maxWidth.

(** [getSpeedString]. *)
Definition getSpeedString (lib : textLib) (dt : downloadTask) : string :=
  humanReadableSize lib (int64_of_float (bytesPerSecond dt)).

Definition displayFileNameLength : Z := 20.

(** The [fileSizeInfo] and [etaInfo] of [updateTerminal] before the bar
    is drawn; [eta] is what [getETAString] returned. *)
Definition fileSizeInfo (lib : textLib) (task : downloadTask) : string :=
  if totalFileSize task <=? 0
  then "|" ++ humanReadableSize lib (getBytesRead task)
  else "|" ++ humanReadableSize lib (totalFileSize task).

Definition etaInfo (lib : textLib) (task : downloadTask) (eta : string) : string :=
  eta ++ "|" ++ getSpeedString lib task ++ "/s".

(** The progress bar of [updateTerminal], for a bar of
    [progressBarLength] columns brackets included. *)
Definition progressBar (lib : textLib) (task : downloadTask)
  (progressBarLength : Z) : call string :=
  let progressBarLength := sub64 progressBarLength 2 in
  let bar := Repeat " " progressBarLength in
  let progressWidth :=
    barProgress lib progressBarLength (getBytesRead task) (totalFileSize task) in
  let progress := if progressWidth >? 0 then Repeat "=" progressWidth else "" in
  if add64 progressWidth 1 <? len bar then
    call_bind (slice_from bar (add64 progressWidth 1))
      (fun tail => Returns (progress ++ ">" ++ tail))
  else Returns (progress ++ ">").

(** The error that [updateTerminal] shows: the condition
    [task.error != nil && task.error != io.EOF]. *)
Definition shownError (task : downloadTask) : option error :=
  match error_ task with
  | Some io_EOF => None
  | other => other
  end.

(** The line of [updateTerminal] for one task, before it is fitted to
    the terminal. *)
Definition taskLine (lib : textLib) (hasWidth : bool) (task : downloadTask)
  (terminalWidth : Z) : call string :=
  let output := "" in
  match shownError task with
  | Some e =>
      if String.eqb (fileName task) "" then Returns ("Error: " ++ Error e)
      else Returns (fileName task ++ ": Error: " ++ Error e)
  | None =>
      if getBytesRead task >? 0 then
        call_bind (truncateFileName lib (fileName task) displayFileNameLength)
          (fun fileNameInfo =>
        let fileSizeInfo := fileSizeInfo lib task in
        call_bind (getETAString task) (fun eta =>
        let etaInfo := etaInfo lib task eta in
        if hasWidth && (totalFileSize task >? 0) then
          let progressBarLength :=
            sub64
              (sub64 terminalWidth (visibleWidth lib (fileSizeInfo ++ etaInfo)))
              displayFileNameLength in
          if progressBarLength >? 4 then
            let fileSizeInfo := fileSizeInfo ++ "[" in
            let etaInfo := "]" ++ etaInfo in
            call_bind (progressBar lib task progressBarLength) (fun bar =>
            Returns (fileNameInfo ++ fileSizeInfo ++ bar ++ etaInfo))
          else if progressBarLength <? 0 then slice_to output terminalWidth
          else Returns (fileNameInfo ++ fileSizeInfo ++ etaInfo)
        else if totalFileSize task >? 0 then
          Returns (fileNameInfo ++ fileSizeInfo
                   ++ fmt_percent lib (getBytesRead task) (totalFileSize task)
                   ++ etaInfo)
        else
          Returns (fileNameInfo ++ "|"
                   ++ humanReadableSize lib (getBytesRead task))))
      else Returns "Waiting..."
  end.

(** The end of the loop body of [updateTerminal]: the line cut or padded
    to the width of the terminal. *)
Definition fitWidth (lib : textLib) (hasWidth : bool) (terminalWidth : Z)
  (output : string) : call string :=
  if hasWidth then
    let outputWidth := visibleWidth lib output in
    if outputWidth >? terminalWidth then slice_to output terminalWidth
    else if outputWidth <? terminalWidth
    then Returns (output ++ Repeat " " (sub64 terminalWidth outputWidth))
    else Returns output
  else Returns output.

(** What [updateTerminal] prints for one task. *)
Definition renderTask (lib : textLib) (hasWidth : bool) (task : downloadTask)
  (terminalWidth : Z) : call string :=
  call_bind (taskLine lib hasWidth task terminalWidth)
    (fitWidth lib hasWidth terminalWidth).

(** [updateTerminal] over tasks that are not nil: the lines printed, and
    the panic that stopped it if one did. *)
Fixpoint updateTerminal (lib : textLib) (hasWidth : bool)
  (tasks : list downloadTask) (terminalWidth : Z)
  : list string * option panicValue :=
  match tasks with
  | [] => ([], None)
  | task :: rest =>
      match renderTask lib hasWidth task terminalWidth with
      | Panics v => ([], Some v)
      | Returns line =>
          let '(lines, stopped) := updateTerminal lib hasWidth rest terminalWidth in
          (line :: lines, stopped)
      end
  end.

(** A library for plain text: one column per byte, no escape sequence,
    one rune per byte; the formatting of floats is left blank. *)
Definition plainText : textLib :=
  mkTextLib len (fun _ => [])
    (fun s => map (fun c => Z.of_nat (nat_of_ascii c)) (list_ascii_of_string s))
    (fun rs => string_of_list_ascii (map (fun r => ascii_of_nat (Z.to_nat r)) rs))
    (fun _ _ => "  0.00") (fun _ _ => "|0.00%") (fun _ _ _ => 0).

(** A library in which every rune takes two bytes and one column. *)
Fixpoint pairRunes (l : list ascii) : list Z :=
  match l with
  | a :: b :: rest =>
      (256 * Z.of_nat (nat_of_ascii a) + Z.of_nat (nat_of_ascii b))
      :: pairRunes rest
  | [a] => [Z.of_nat (nat_of_ascii a)]
  | [] => []
  end.

Definition twoByteText : textLib :=
  mkTextLib (fun s => Z.quot (len s) 2) (fun _ => [])
    (fun s => pairRunes (list_ascii_of_string s))
    (fun rs =>
       string_of_list_ascii
         (flat_map (fun r => [ascii_of_nat (Z.to_nat (Z.quot r 256));
                              ascii_of_nat (Z.to_nat (Z.rem r 256))]) rs))
    (fun _ _ => "  0.00") (fun _ _ => "|0.00%") (fun _ _ _ => 0).

(** A task whose transfer is under way, for examples. *)
Definition runningTask : downloadTask :=
  mkTask false (2048 # 1) None 0 0 4096 1048576 "file.zip"
    (mkRateLimiter 0 0 (-1000)) "http://host/dl/file.zip" false [].

(** * Properties *)

(** ** Machine integers *)

Lemma wrap64_id z : in_int64 z -> wrap64 z = z.
Proof.
  unfold in_int64, min_int64, max_int64, wrap64. intros H.
  rewrite Z.mod_small; lia.
Qed.

Lemma wrap64_range z : in_int64 (wrap64 z).
Proof.
  unfold in_int64, min_int64, max_int64, wrap64.
  pose proof (Z.mod_pos_bound (z + 2 ^ 63) (2 ^ 64) ltac:(lia)). lia.
Qed.

(** ** The rate limiter *)

Lemma Time_Sub_monotonic (t u : Time) :
  u <= t -> Time_Sub t u = Z.min max_int64 (t - u).
Proof.
  unfold Time_Sub, min_int64, max_int64. lia.
Qed.

(** C2.  With byte counts in the non-negative [int64] range and a clock
    that has not gone back since the checkpoint, [wait] has exactly three
    behaviours.  Within the second and at or above the ceiling it sleeps
    the remainder of the second and the checkpoint becomes the clock read
    after the sleep, with the current count.  Past the second it does not
    sleep and the checkpoint becomes the clock read on entry, with the
    current count.  Within the second and below the ceiling it neither
    sleeps nor changes anything. *)
Theorem wait_window_cases (rl : rateLimiter) (currentBytesRead : Z)
    (now after : Time) :
  0 <= lastReadBytes rl <= max_int64 ->
  0 <= currentBytesRead <= max_int64 ->
  lastCheckTime rl <= now ->
  let elapsed := now - lastCheckTime rl in
  (elapsed <= Second ->
   limit rl <= currentBytesRead - lastReadBytes rl ->
   wait rl currentBytesRead now after
   = (mkRateLimiter currentBytesRead after (limit rl), Some (Second - elapsed)))
  /\ (Second < elapsed ->
      wait rl currentBytesRead now after
      = (mkRateLimiter currentBytesRead now (limit rl), None))
  /\ (elapsed <= Second ->
      currentBytesRead - lastReadBytes rl < limit rl ->
      wait rl currentBytesRead now after = (rl, None)).
Proof.
  intros Hlast Hcur Hclock elapsed.
  assert (Hbytes : sub64 currentBytesRead (lastReadBytes rl)
                   = currentBytesRead - lastReadBytes rl).
  { apply wrap64_id. unfold in_int64, min_int64, max_int64 in *. lia. }
  unfold wait. rewrite (Time_Sub_monotonic _ _ Hclock), Hbytes.
  fold elapsed. unfold Second, max_int64 in *.
  repeat split; intros.
  - replace (Z.min (2 ^ 63 - 1) elapsed) with elapsed by lia.
    destruct (Z.leb_spec elapsed 1000000000); [| lia].
    destruct (Z.geb_spec (currentBytesRead - lastReadBytes rl) (limit rl)); [| lia].
    unfold sub64. rewrite wrap64_id; [reflexivity |].
    unfold in_int64, min_int64, max_int64. subst elapsed. lia.
  - destruct (Z.leb_spec (Z.min (2 ^ 63 - 1) elapsed) 1000000000); [lia | reflexivity].
  - replace (Z.min (2 ^ 63 - 1) elapsed) with elapsed by lia.
    destruct (Z.leb_spec elapsed 1000000000); [| lia].
    destruct (Z.geb_spec (currentBytesRead - lastReadBytes rl) (limit rl)); [lia |].
    reflexivity.
Qed.

Lemma wait_window_cases_witness :
  wait (mkRateLimiter 0 0 50000) 60000 400000000 1000000000
  = (mkRateLimiter 60000 1000000000 50000, Some 600000000).
Proof.
  apply (proj1 (wait_window_cases (mkRateLimiter 0 0 50000) 60000
                  400000000 1000000000
                  ltac:(unfold max_int64; simpl; lia)
                  ltac:(unfold max_int64; lia)
                  ltac:(simpl; lia)));
    simpl; unfold Second; lia.
Defined.

(** ** The ETA string *)

(** When the throughput is at least one byte per second and the total is
    not zero, the string is the formatted quotient. *)
Lemma getETAString_quotient (dt : downloadTask) :
  totalFileSize dt <> 0 ->
  (1 <= bytesPerSecond dt)%Q ->
  getETAString dt
  = Returns (durationToString
               (quot64 (sub64 (totalFileSize dt) (getBytesRead dt))
                  (int64_of_float (bytesPerSecond dt)))).
Proof.
  intros Ht Hb. unfold getETAString.
  destruct (Z.eqb_spec (totalFileSize dt) 0); [contradiction |].
  destruct (Qeq_bool (bytesPerSecond dt) 0) eqn:Hz.
  - apply Qeq_bool_eq in Hz. unfold Qeq, Qle in *. simpl in *. lia.
  - simpl. unfold int64_of_float.
    destruct (bytesPerSecond dt) as [num den]. unfold Qle in Hb. simpl in *.
    destruct (Z.eqb_spec (num ÷ Z.pos den) 0) as [E | E]; [| reflexivity].
    exfalso.
    pose proof (Z.quot_le_lower_bound num (Z.pos den) 1 ltac:(lia) ltac:(lia)).
    lia.
Qed.

(** C8 (the code at the inputs where it departs from the claim).  With a
    known total and a throughput of half a byte per second the call
    panics on an integer division by zero instead of returning ["N/A"];
    with an unknown total of [-1] and a positive throughput it returns a
    formatted duration instead of ["N/A"]. *)
Theorem getETAString_not_NA :
  getETAString (observedTask 100 10 (1 # 2)) = Panics integer_divide_by_zero
  /\ getETAString (observedTask (-1) 10 (100 # 1)) = Returns " 0s".
Proof.
  split; reflexivity.
Qed.

(** ** Path cleaning and [extractFilename] *)

Lemma chars_eqb_eq (a b : chars) : chars_eqb a b = true <-> a = b.
Proof.
  unfold chars_eqb. rewrite String.eqb_eq. split; intros H.
  - apply (f_equal list_ascii_of_string) in H.
    now rewrite !list_ascii_of_string_of_list_ascii in H.
  - now subst.
Qed.

Lemma chars_eqb_neq (a b : chars) : chars_eqb a b = false <-> a <> b.
Proof.
  rewrite <- chars_eqb_eq. destruct (chars_eqb a b); intuition congruence.
Qed.

Lemma is_slash_true (c : ascii) : is_slash c = true <-> c = slash.
Proof. apply Ascii.eqb_eq. Qed.

Lemma split_slash_nonempty (l : chars) : split_slash l <> [].
Proof.
  destruct l as [| c r]; simpl; [discriminate |].
  destruct (is_slash c); [discriminate |].
  destruct (split_slash r); discriminate.
Qed.

Lemma split_slash_elements (l : chars) :
  ~ In NUL l -> Forall clean_chars_only (split_slash l).
Proof.
  induction l as [| c r IH]; simpl; intros Hnul.
  - repeat constructor; intros [].
  - assert (Hr : ~ In NUL r) by tauto.
    specialize (IH Hr).
    destruct (is_slash c) eqn:Hc.
    + constructor; [split; intros [] | exact IH].
    + destruct (split_slash r) as [| h t] eqn:Hs.
      * now destruct (split_slash_nonempty r).
      * inversion IH as [| ? ? [Hh1 Hh2] Ht]; subst.
        constructor; [| exact Ht].
        split; intros [E | E]; try tauto; subst c.
        unfold is_slash in Hc. now rewrite Ascii.eqb_refl in Hc.
Qed.

(** In a rooted path every element that [path.Clean] keeps is a real
    one, and is one of the elements it was given. *)
Lemma clean_element_rooted (P : chars -> Prop) (stack : list chars)
    (elem : chars) :
  P elem -> Forall (fun e => real_element e /\ P e) stack ->
  Forall (fun e => real_element e /\ P e) (clean_element true stack elem).
Proof.
  intros He Hs. unfold clean_element.
  destruct elem as [| c r]; [exact Hs |].
  destruct (chars_eqb (c :: r) [dot]) eqn:E1; [exact Hs |].
  destruct (chars_eqb (c :: r) dotdot) eqn:E2.
  - destruct stack as [| top below]; [constructor |].
    inversion Hs as [| ? ? [[_ [_ Htop]] _] Hbelow]; subst.
    destruct (chars_eqb top dotdot) eqn:E3; [| exact Hbelow].
    apply chars_eqb_eq in E3. contradiction.
  - constructor; [| exact Hs].
    apply chars_eqb_neq in E1. apply chars_eqb_neq in E2.
    repeat split; try assumption. discriminate.
Qed.

Lemma clean_fold_rooted (P : chars -> Prop) (elems stack : list chars) :
  Forall P elems -> Forall (fun e => real_element e /\ P e) stack ->
  Forall (fun e => real_element e /\ P e)
    (fold_left (clean_element true) elems stack).
Proof.
  revert stack. induction elems as [| e rest IH]; simpl; intros stack He Hs.
  - exact Hs.
  - inversion He; subst. apply IH; [assumption |].
    now apply clean_element_rooted.
Qed.

Lemma join_slash_last (ks : list chars) (k : chars) :
  exists q, (slash :: join_slash (ks ++ [k]) = q ++ slash :: k)%list.
Proof.
  induction ks as [| e ks IH]; simpl.
  - now exists [].
  - destruct IH as [q Hq].
    destruct (ks ++ [k])%list as [| x xs] eqn:E.
    + now destruct ks.
    + exists (slash :: e ++ q)%list. simpl. f_equal.
      rewrite <- app_assoc. f_equal. exact Hq.
Qed.

Lemma drop_slashes_element (e rest : chars) :
  e <> [] -> ~ In slash e ->
  drop_slashes (e ++ rest)%list = (e ++ rest)%list.
Proof.
  destruct e as [| c r]; [congruence |]. intros _ Hs. simpl.
  destruct (is_slash c) eqn:Hc; [| reflexivity].
  apply is_slash_true in Hc. subst. exfalso. apply Hs. now left.
Qed.

Lemma take_element_until_slash (e rest : chars) :
  ~ In slash e -> take_element (e ++ slash :: rest)%list = e.
Proof.
  induction e as [| c r IH]; simpl; intros Hs.
  - reflexivity.
  - destruct (is_slash c) eqn:Hc.
    + apply is_slash_true in Hc. subst. exfalso. apply Hs. now left.
    + f_equal. apply IH. tauto.
Qed.

(** [filepath.Base] of a cleaned rooted path is its last element. *)
Lemma Base_chars_rooted (ks : list chars) (k : chars) :
  k <> [] -> ~ In slash k ->
  Base_chars (slash :: join_slash (ks ++ [k])%list) = k.
Proof.
  intros Hne Hs. destruct (join_slash_last ks k) as [q Hq].
  unfold Base_chars. rewrite Hq.
  destruct (q ++ slash :: k)%list as [| x xs] eqn:E.
  - now destruct q.
  - rewrite <- E. rewrite rev_app_distr. simpl rev.
    rewrite <- app_assoc. simpl.
    assert (Hr : ~ In slash (rev k)) by (now rewrite <- in_rev).
    assert (Hrne : rev k <> []).
    { intros H. apply (f_equal (@rev ascii)) in H. rewrite rev_involutive in H.
      now apply Hne. }
    rewrite drop_slashes_element by assumption.
    rewrite take_element_until_slash by assumption.
    destruct (rev k) eqn:Ek; [congruence |].
    change (rev (a :: l) = k). rewrite <- Ek. apply rev_involutive.
Qed.

(** The name that [extractFilename] computes from a NUL-free derived
    name is ["/"] or a single real path element. *)
Lemma Base_Clean_rooted (l : chars) :
  ~ In NUL l ->
  let name := Base_chars (Clean_chars (slash :: l)) in
  name = [slash] \/ (real_element name /\ clean_chars_only name).
Proof.
  intros Hnul name. subst name. unfold Clean_chars.
  change (is_slash slash) with true. cbv iota.
  assert (Hkept : Forall (fun e => real_element e /\ clean_chars_only e)
                    (fold_left (clean_element true) (split_slash (slash :: l)) [])).
  { apply clean_fold_rooted; [| constructor].
    apply split_slash_elements. intros [E | E]; [discriminate E | tauto]. }
  remember (fold_left (clean_element true) (split_slash (slash :: l)) []) as stack.
  clear Heqstack. destruct stack as [| k below]; simpl rev.
  - left. reflexivity.
  - right. inversion Hkept as [| ? ? [Hreal Hclean] _]; subst.
    change ([slash] ++ join_slash (rev below ++ [k]))%list
      with (slash :: join_slash (rev below ++ [k])%list).
    cbv iota. rewrite Base_chars_rooted.
    + split; assumption.
    + apply Hreal.
    + apply Hclean.
Qed.

(** The three conditions under which [extractFilename] gives up at once. *)
Lemma extractFilename_rejects (parse : MediaTypeParser) (response : Response) :
  derivedName parse response = ""
  \/ HasSuffix_slash (derivedName parse response) = true
  \/ Contains_NUL (derivedName parse response) = true ->
  extractFilename parse response = ("", Some ErrMissingFilename).
Proof.
  intros H. unfold extractFilename.
  destruct H as [H | [H | H]]; rewrite H; simpl;
    rewrite ?orb_true_r; reflexivity.
Qed.

Lemma extractFilename_accepted (parse : MediaTypeParser) (response : Response)
    (name : string) :
  extractFilename parse response = (name, None) ->
  name = filepath_Base (path_Clean ("/" ++ derivedName parse response))
  /\ single_component name.
Proof.
  unfold extractFilename.
  destruct (String.eqb (derivedName parse response) "" || _ || _) eqn:Hrej;
    [discriminate |].
  apply orb_false_elim in Hrej. destruct Hrej as [_ Hnul].
  set (cleaned := filepath_Base _).
  destruct (String.eqb cleaned "" || _ || _) eqn:Hbad; [discriminate |].
  intros E. injection E as E. subst name. split; [reflexivity |].
  apply orb_false_elim in Hbad. destruct Hbad as [Hbad Hroot].
  apply orb_false_elim in Hbad. destruct Hbad as [Hempty Hdot].
  apply String.eqb_neq in Hempty, Hdot, Hroot.
  assert (Hl : ~ In NUL (list_ascii_of_string (derivedName parse response))).
  { intros Hin. unfold Contains_NUL in Hnul.
    assert (existsb (Ascii.eqb NUL)
              (list_ascii_of_string (derivedName parse response)) = true).
    { apply existsb_exists. exists NUL. split; [exact Hin | apply Ascii.eqb_refl]. }
    congruence. }
  pose proof (Base_Clean_rooted _ Hl) as Hname. cbv zeta in Hname.
  assert (Hc : list_ascii_of_string cleaned
               = Base_chars (Clean_chars
                   (slash :: list_ascii_of_string (derivedName parse response)))).
  { unfold cleaned, filepath_Base, path_Clean.
    rewrite !list_ascii_of_string_of_list_ascii. reflexivity. }
  rewrite <- Hc in Hname.
  assert (Hs : forall l, list_ascii_of_string cleaned = l ->
                         cleaned = string_of_list_ascii l).
  { intros l El. rewrite <- El. now rewrite string_of_list_ascii_of_string. }
  destruct Hname as [Hname | [[Hne [Hd Hdd]] [Hslash Hn]]].
  - apply Hs in Hname. contradiction.
  - repeat split; try assumption.
    intros E. apply Hdd. rewrite E. reflexivity.
Qed.

(** ** Symbolic execution of the task monad *)

(** Sequencing: early returns and panics skip the continuation. *)
Lemma run_bind {A B} (m : M A) (k : A -> M B) (s : st) Q :
  run m s (fun r s1 evs1 =>
             match r with
             | Normal a => run (k a) s1 (fun r2 s2 evs2 => Q r2 s2 (evs1 ++ evs2)%list)
             | Returned => Q Returned s1 evs1
             | Panicked v => Q (Panicked v) s1 evs1
             end) ->
  run (bind m k) s Q.
Proof.
  unfold run, bind. destruct (m s) as [[r s1] evs1]. simpl.
  destruct r; simpl; try tauto.
  destruct (k a s1) as [[r2 s2] evs2]. simpl. tauto.
Qed.

Lemma run_weaken {A} (m : M A) (s : st) (Q Q' : result A -> st -> list event -> Prop) :
  run m s Q -> (forall r s' evs, Q r s' evs -> Q' r s' evs) -> run m s Q'.
Proof. unfold run. auto. Qed.

Lemma run_intro {A} (m : M A) (s : st) (Q : result A -> st -> list event -> Prop) :
  (forall r s' evs, m s = (r, s', evs) -> Q r s' evs) -> run m s Q.
Proof.
  unfold run. intros H. destruct (m s) as [[r s'] evs]. apply H. reflexivity.
Qed.

(** An operation that computes to its result in one go. *)
Lemma run_compute {A} (m : M A) (s : st) Q r s' evs :
  m s = (r, s', evs) -> Q r s' evs -> run m s Q.
Proof. unfold run. intros ->. auto. Qed.

Ltac run_prim := eapply run_compute; [reflexivity |]; cbv beta iota.

(** One step of symbolic execution: the rule for [bind], a case split
    on the condition or scrutinee at the head, or the definition of the
    operation at the head. *)
Ltac run_step :=
  lazymatch goal with
  | |- run (bind _ _) _ _ => apply run_bind
  | |- run (if ?b then _ else _) _ _ => destruct b eqn:?
  | |- run (match ?x with _ => _ end) _ _ => destruct x eqn:?
  | |- run (ret _) _ _ => run_prim
  | |- run (emit _) _ _ => run_prim
  | |- run get _ _ => run_prim
  | |- run (modify _) _ _ => run_prim
  | |- run (panic _) _ _ => run_prim
  | |- run return_ _ _ => run_prim
  | |- run (Now _) _ _ => run_prim
  | |- run (called (Returns _)) _ _ => run_prim
  | |- run (called (Panics _)) _ _ => run_prim
  | |- run (called ?c) _ _ => destruct c eqn:?
  | |- run (closeCompletion) _ _ => unfold closeCompletion
  | |- run (storeError _) _ _ => unfold storeError
  | |- run (storeEndTime _) _ _ => unfold storeEndTime
  | |- run (clientDo _ _) _ _ => unfold clientDo
  | |- run (statusCode _) _ _ => unfold statusCode
  | |- run (requestFailed _ _) _ _ => unfold requestFailed
  | |- run (failRequest _ _) _ _ => unfold failRequest
  | |- run (failOpen _) _ _ => unfold failOpen
  | |- run (finish _ _) _ _ => unfold finish
  | |- run (recoverPanic _ _) _ _ => unfold recoverPanic
  | |- run (resume _ _ _ _) _ _ => unfold resume
  | |- run (prepare _) _ _ => unfold prepare
  | |- run (start_body _) _ _ => unfold start_body
  end.

(** ** What the transfer loop leaves alone *)

Lemma same_settings_trans a b c :
  same_settings a b -> same_settings b c -> same_settings a c.
Proof. unfold same_settings. intuition congruence. Qed.

Lemma same_outside_loop_trans a b c :
  same_outside_loop a b -> same_outside_loop b c -> same_outside_loop a c.
Proof. unfold same_outside_loop, same_settings. intuition congruence. Qed.

Lemma limiterWait_frame (w : world) (s : st) :
  run (limiterWait w) s (fun r s' evs =>
    r = Normal tt
    /\ same_outside_loop (task s) (task s')
    /\ bytesRead (task s') = bytesRead (task s)
    /\ (evs = [] \/ exists d, evs = [EvSleep d])).
Proof.
  unfold run, limiterWait, wait.
  repeat match goal with
         | |- context [if ?b then _ else _] => destruct b
         end; cbn; unfold same_outside_loop, same_settings; cbn;
    repeat split; eauto.
Qed.

Lemma transfer_frame (w : world) (turns : list iteration) :
  forall s, run (transfer w turns) s (loop_frame s).
Proof.
  induction turns as [| turn rest IH]; intros s; simpl;
    apply run_bind; (eapply run_weaken; [apply limiterWait_frame |]);
    intros r s1 evs1 (-> & Hf & _ & He);
    assert (Forall (fun e => loop_event e = true) evs1)
      by (destruct He as [-> | [d ->]]; repeat constructor);
    clear He; rename H into He; repeat run_step;
    try (eapply run_weaken; [apply IH |]; intros ? ? ? (Hr & Hf2 & He2));
    unfold loop_frame; cbn;
    (split; [congruence || discriminate |]);
    (split;
     [ first [ exact Hf
             | apply (same_outside_loop_trans _ _ _ Hf);
               first [ exact Hf2 | repeat split ] ]
     | rewrite ?Forall_app; repeat split;
       repeat first [ exact He | exact He2 | constructor ] ]).
Qed.

(** ** The completion channel *)

Lemma ends_with_close_app (a b : list event) :
  no_close a -> ends_with_close (a ++ b) = ends_with_close b.
Proof.
  induction 1 as [| e a He _ IH]; simpl; [reflexivity |].
  destruct e; try exact IH. discriminate He.
Qed.

Lemma count_close_app (a b : list event) :
  count_close (a ++ b) = (count_close a + count_close b)%nat.
Proof. unfold count_close. now rewrite filter_app, List.length_app. Qed.



Lemma ends_with_close_after (evs : list event) :
  ends_with_close evs = true -> exists t, after_close evs = [EvStoreEndTime t].
Proof.
  induction evs as [| e rest IH]; simpl; [discriminate |].
  destruct e; try exact IH.
  destruct rest as [| e2 [| e3 rest]]; intros H; try discriminate H;
    destruct e2; try discriminate H. now eexists.
Qed.

Lemma loop_events_no_close (evs : list event) :
  Forall (fun e => loop_event e = true) evs -> no_close evs.
Proof.
  apply Forall_impl. intros e. destruct e; simpl; congruence.
Qed.

Lemma no_close_app (a b : list event) : no_close a -> no_close b -> no_close (a ++ b).
Proof. intros. apply Forall_app. now split. Qed.

Lemma prepare_shape (w : world) (s : st) :
  completionClosed (task s) = false ->
  run (prepare w) s open_or_done.
Proof.
  intros Hopen. repeat (run_step; cbn in *; try congruence).
  all: unfold open_or_done, no_close; cbn; split; auto; repeat constructor.
Qed.

Lemma finish_shape (w : world) (err : option error) (s : st) :
  completionClosed (task s) = false ->
  run (finish w err) s (fun r s' evs =>
    r = Normal tt /\ completionClosed (task s') = true
    /\ ends_with_close evs = true).
Proof.
  intros Hopen. repeat (run_step; cbn in *; try congruence). auto.
Qed.

Lemma start_body_shape (w : world) (s : st) :
  completionClosed (task s) = false ->
  run (start_body w) s done_or_panicked.
Proof.
  intros Hopen. unfold start_body. apply run_bind.
  eapply run_weaken; [apply prepare_shape, Hopen |].
  intros r s1 evs1. destruct r as [[] | |]; cbn; try tauto.
  intros [Hopen1 Hno1]. apply run_bind.
  eapply run_weaken; [apply transfer_frame |].
  intros r s2 evs2 (Hr & Hf & Hev).
  assert (Hopen2 : completionClosed (task s2) = false).
  { destruct Hf as [Hc _]. congruence. }
  apply loop_events_no_close in Hev.
  destruct r as [err | |]; [| congruence |].
  - eapply run_weaken; [apply finish_shape, Hopen2 |].
    intros r s3 evs3 (-> & Hclosed & Hends). cbn. split; [exact Hclosed |].
    rewrite !ends_with_close_app; assumption.
  - cbn. split; [exact Hopen2 | now apply no_close_app].
Qed.

Lemma start_run (w : world) (dt : downloadTask) (Q : outcome -> Prop) :
  run (start_body w) (mkSt dt 0) (fun r s evs =>
    match r with
    | Panicked v =>
        run (recoverPanic w v) s (fun r' s' evs' =>
          match r' with
          | Panicked v' => Q (mkOutcome (Some v') (task s') (evs ++ evs'))
          | _ => Q (mkOutcome None (task s') (evs ++ evs'))
          end)
    | _ => Q (mkOutcome None (task s) evs)
    end) ->
  Q (start w dt).
Proof.
  unfold run, start. destruct (start_body w (mkSt dt 0)) as [[r s] evs].
  cbn [fst snd]. destruct r; auto.
  destruct (recoverPanic w v s) as [[r' s'] evs']. cbn [fst snd].
  destruct r'; auto.
Qed.

(** Every run of [start] on a task whose channel is open returns, with
    the channel closed exactly at the end. *)
Lemma start_shape (w : world) (dt : downloadTask) :
  completionClosed dt = false ->
  escaped (start w dt) = None
  /\ completionClosed (final (start w dt)) = true
  /\ ends_with_close (trace (start w dt)) = true.
Proof.
  intros Hopen. apply start_run.
  eapply run_weaken; [apply start_body_shape; exact Hopen |].
  intros r s evs. destruct r; cbn; try tauto.
  intros [Hopen1 Hno]. repeat (run_step; cbn in *; try congruence).
  repeat split. rewrite ends_with_close_app by exact Hno. reflexivity.
Qed.

(** ** The bytes-read counter in the loop and before it *)

Lemma counts_app b e1 b1 e2 b2 :
  counts b e1 b1 -> counts b1 e2 b2 -> counts b (e1 ++ e2) b2.
Proof.
  unfold counts. revert b. induction e1 as [| e rest IH]; simpl; intros b.
  - intros [_ ->]. auto.
  - destruct e; simpl; try (intros; apply IH; assumption).
    + intros [[Hle Hm] Ha] H2. split; [split; [exact Hle |] |]; apply IH; auto.
    + intros [[Hle Hm] Ha] H2. split; [split; [exact Hle |] |]; apply IH; auto.
Qed.

Lemma offered_nonneg (turns : list iteration) : 0 <= offered turns.
Proof.
  induction turns as [| turn rest IH]; simpl; [lia |].
  unfold delivered. destruct (it_read turn) as [[n e] | v]; lia.
Qed.

Lemma add64_small (a b : Z) : in_int64 (a + b) -> add64 a b = a + b.
Proof. apply wrap64_id. Qed.

Lemma transfer_counter (w : world) (turns : list iteration) :
  forall s,
    0 <= bytesRead (task s) ->
    bytesRead (task s) + offered turns <= max_int64 ->
    run (transfer w turns) s (fun r s' evs =>
      counts (bytesRead (task s)) evs (bytesRead (task s'))).
Proof.
  induction turns as [| turn rest IH]; intros s Hlo Hhi; simpl;
    apply run_bind; (eapply run_weaken; [apply limiterWait_frame |]);
    intros r s1 evs1 (-> & _ & Hb & He).
  - repeat run_step. cbn. rewrite Hb.
    destruct He as [-> | [d ->]]; split; cbn; auto.
  - simpl in Hhi. unfold delivered in Hhi. pose proof (offered_nonneg rest).
    repeat run_step.
    all: try rewrite Heqc in Hhi.
    all: try match goal with
             | H : (_ >? 0) = true |- _ => apply Z.gtb_lt in H
             end.
    all: try match goal with
             | |- run (transfer _ _) ?s2 _ =>
                 eapply run_weaken;
                 [apply (IH s2) |];
                 [ | | intros ? ? ? Hrec; cbn in Hrec]
             end.
    all: cbn in *; rewrite ?Hb in *.
    all: try (destruct He as [-> | [d ->]]; cbn).
    all: unfold counts in *; cbn [counter_monotone counter_after].
    all: rewrite ?add64_small in *
        by (unfold in_int64, min_int64, max_int64 in *; lia).
    all: unfold max_int64 in *; try lia; intuition lia.
Qed.

(** Before the loop the counter is stored to at most once, with the size
    of a file that [os.Stat] reported. *)
Lemma prepare_counter (w : world) (s : st) :
  bytesRead (task s) = 0 ->
  (forall name info, Stat w name = Some info -> 0 <= Size info) ->
  run (prepare w) s (fun r s' evs =>
    counts 0 evs (bytesRead (task s'))
    /\ (bytesRead (task s') = 0
        \/ exists name info,
             Stat w name = Some info /\ bytesRead (task s') = Size info)).
Proof.
  intros Hzero Hsize. repeat run_step.
  all: unfold counts; cbn; rewrite ?Hzero; repeat split; eauto.
Qed.

Lemma start_body_counter (w : world) (s : st) :
  bytesRead (task s) = 0 ->
  counter_fits w ->
  run (start_body w) s (fun r s' evs => counts 0 evs (bytesRead (task s'))).
Proof.
  intros Hzero [Hbody Hstat]. unfold start_body. apply run_bind.
  eapply run_weaken;
    [apply (prepare_counter w s Hzero); intros n i Hs; apply (Hstat n i Hs) |].
  intros r s1 evs1 [Hc1 Hb1].
  assert (Hrange : 0 <= bytesRead (task s1)
                   /\ bytesRead (task s1) + offered (body w) <= max_int64).
  { pose proof (offered_nonneg (body w)).
    destruct Hb1 as [-> | (n & i & Hs & ->)]; [lia | apply (Hstat n i Hs)]. }
  destruct r as [[] | |]; try exact Hc1.
  apply run_bind.
  eapply run_weaken; [apply transfer_counter; apply Hrange |].
  intros r s2 evs2 Hc2. cbn beta.
  destruct r as [err | |].
  - repeat run_step; cbn.
    all: apply (counts_app _ _ _ _ _ Hc1); apply (counts_app _ _ _ _ _ Hc2).
    all: split; reflexivity || exact I.
  - now apply (counts_app _ _ _ _ _ Hc1).
  - now apply (counts_app _ _ _ _ _ Hc1).
Qed.

Lemma start_counter (w : world) (dt : downloadTask) :
  bytesRead dt = 0 ->
  counter_fits w ->
  counts 0 (trace (start w dt)) (bytesRead (final (start w dt))).
Proof.
  intros Hzero Hfits. apply start_run.
  eapply run_weaken; [apply (start_body_counter w (mkSt dt 0) Hzero Hfits) |].
  intros r s evs Hc. destruct r; try exact Hc.
  repeat run_step; cbn.
  all: apply (counts_app _ _ _ _ _ Hc); split; reflexivity || exact I.
Qed.

(** ** From [prepare] to [start]: resuming *)

(** Execution along known facts: a scrutinee whose value is given by a
    hypothesis is replaced by it, other steps are split and the branches
    that contradict the hypotheses are closed. *)
Ltac run_known :=
  match goal with
  | H : ?x = _ |- run (match ?x with _ => _ end) _ _ => rewrite H; cbv beta iota
  | H : ?x = _ |- run (if ?x then _ else _) _ _ => rewrite H; cbv beta iota
  end.

Ltac run_directed := repeat first [run_known | run_step; try congruence].

Lemma loop_events_closing (evs : list event) :
  Forall (fun e => loop_event e = true) evs ->
  Forall (fun e => closing_event e = true) evs.
Proof.
  apply Forall_impl. intros e. destruct e; simpl; congruence.
Qed.

(** The trace of [start] begins with the trace of [prepare], goes on
    with events of the loop and of the end of a run only, and the fields
    settled by [prepare] are those of the final task. *)
Lemma start_extends_prepare (w : world) (dt : downloadTask) :
  forall r s1 evs1,
    prepare w (mkSt dt 0) = (r, s1, evs1) ->
    exists rest,
      trace (start w dt) = (evs1 ++ rest)%list
      /\ Forall (fun e => closing_event e = true) rest
      /\ same_settings (task s1) (final (start w dt)).
Proof.
  intros r s1 evs1 Hp. apply start_run. unfold start_body. apply run_bind.
  apply run_intro. intros r' s' evs' Hp'. rewrite Hp in Hp'.
  inversion Hp'; subst r' s' evs'; clear Hp'.
  assert (Hrec : forall v s evs,
            same_settings (task s1) (task s) ->
            Forall (fun e => closing_event e = true) evs ->
            run (recoverPanic w v) s (fun r' s' evs' =>
              exists rest, (evs1 ++ evs ++ evs' = evs1 ++ rest)%list
                           /\ Forall (fun e => closing_event e = true) rest
                           /\ same_settings (task s1) (task s'))).
  { intros v s evs Hs He. repeat run_step; cbn; eexists;
      (split; [reflexivity |]);
      (split; [apply Forall_app; split; [exact He | repeat constructor] |]);
      apply (same_settings_trans _ _ _ Hs); repeat split. }
  cbv beta.
  destruct r as [[] | |].
  - apply run_bind. eapply run_weaken; [apply transfer_frame |].
    intros r2 s2 evs2 (Hr & [_ Hf] & He). apply loop_events_closing in He.
    destruct r2 as [err | |]; [| congruence |].
    + repeat run_step; cbn; rewrite <- ?app_assoc; eexists;
        (split; [reflexivity |]);
        (split; [apply Forall_app; split; [exact He | repeat constructor] |]);
        apply (same_settings_trans _ _ _ Hf); repeat split.
    + eapply run_weaken; [apply (Hrec v s2 evs2 Hf He) |].
      intros [] ? ?; rewrite <- ?app_assoc; auto.
  - exists []. rewrite app_nil_r. repeat split. constructor.
  - eapply run_weaken; [apply (Hrec v s1 [] ltac:(repeat split) ltac:(constructor)) |].
    intros [] ? ?; auto.
Qed.

Lemma status_accepted (r : Response) :
  StatusCode r = StatusOK \/ StatusCode r = StatusPartialContent ->
  negb (StatusCode r =? StatusOK) && negb (StatusCode r =? StatusPartialContent)
  = false.
Proof. intros [-> | ->]; reflexivity. Qed.

Lemma range_confirmed (r : Response) :
  Header r "Accept-Ranges" = "bytes" \/ Header r "Content-Range" <> "" ->
  String.eqb (Header r "Accept-Ranges") "bytes"
  || negb (String.eqb (Header r "Content-Range") "") = true.
Proof.
  intros [-> | H]; [reflexivity |].
  apply String.eqb_neq in H. rewrite H. apply orb_true_r.
Qed.

Section Resume.

Variable w : world.
Variables (limit : Z) (url : string) (hs : list (string * string)).
Variables (r1 : Response) (info : FileInfo).

Let dt := newDownloadTask limit url hs.
Let name := fst (extractFilename (ParseMediaType w) r1).

Hypothesis Hrequest : request_valid w = true.
Hypothesis Hfirst : first_response w = (Some r1, None).
Hypothesis Hstatus :
  StatusCode r1 = StatusOK \/ StatusCode r1 = StatusPartialContent.
Hypothesis Hstat : Stat w name = Some info.
Hypothesis Hfile : IsDir info = false.
Hypothesis Hsize : Size info <> ContentLength r1.

Lemma prepare_rerequests :
  run (prepare w) (mkSt dt 0) (fun r s' evs =>
    exists rest,
      evs = EvDo None :: EvStat name :: EvBodyClose
            :: EvDo (Some (rangeHeader (Size info))) :: rest).
Proof.
  pose proof (status_accepted r1 Hstatus) as Hst.
  apply Z.eqb_neq in Hsize. unfold name in Hstat.
  assert (Hdir : negb (IsDir info) = true) by now rewrite Hfile.
  run_directed.
  all: cbn; eexists; reflexivity.
Qed.

Lemma prepare_resumes (r2 : Response) :
  range_response w = (Some r2, None) ->
  StatusCode r2 = StatusOK \/ StatusCode r2 = StatusPartialContent ->
  Header r2 "Accept-Ranges" = "bytes" \/ Header r2 "Content-Range" <> "" ->
  run (prepare w) (mkSt dt 0) (fun r s' evs =>
    exists rest,
      evs = EvDo None :: EvStat name :: EvBodyClose
            :: EvDo (Some (rangeHeader (Size info)))
            :: EvOpenFile name :: rest
      /\ (OpenFile w name = None ->
          r = Normal tt
          /\ evs = [EvDo None; EvStat name; EvBodyClose;
                    EvDo (Some (rangeHeader (Size info)));
                    EvOpenFile name; EvSeekEnd;
                    EvStoreBytesRead (Size info); EvGoMonitorSpeed]
          /\ bytesRead (task s') = Size info
          /\ isResumable (task s') = true
          /\ totalFileSize (task s')
             = if ContentLength r2 >? 0
               then add64 (ContentLength r2) (Size info)
               else ContentLength r2)).
Proof.
  intros Hsecond Hstatus2 Hconfirm.
  pose proof (status_accepted r1 Hstatus) as Hst.
  pose proof (status_accepted r2 Hstatus2) as Hst2.
  pose proof (range_confirmed r2 Hconfirm) as Hrange.
  apply Z.eqb_neq in Hsize. unfold name in Hstat.
  assert (Hdir : negb (IsDir info) = true) by now rewrite Hfile.
  run_directed.
  all: cbn; eexists; (split; [reflexivity |]); intros Hopen;
    try congruence.
  all: unfold name in *; cbn in *; try congruence.
  all: destruct (ContentLength r2 >? 0); cbn in *; repeat split; congruence.
Qed.

End Resume.

(** C1, as the code has it.  A new task that finds an existing regular
    file whose size differs from the declared content length sends the
    request again with [Range: bytes=<size>-].  When the second response
    is accepted and confirms range support the task opens the existing
    file; when that succeeds it seeks to the end, seeds the counter with
    the size, is resumable at the end of the run, and its total size is
    the [int64] sum of the new content length and the size when the new
    content length is positive, and the new content length itself
    otherwise. *)
Theorem start_resumes_existing_file (w : world) (limit : Z) (url : string)
    (hs : list (string * string)) (r1 : Response) (info : FileInfo) :
  let name := fst (extractFilename (ParseMediaType w) r1) in
  let o := start w (newDownloadTask limit url hs) in
  request_valid w = true ->
  first_response w = (Some r1, None) ->
  StatusCode r1 = StatusOK \/ StatusCode r1 = StatusPartialContent ->
  Stat w name = Some info ->
  IsDir info = false ->
  Size info <> ContentLength r1 ->
  (exists rest,
     trace o = EvDo None :: EvStat name :: EvBodyClose
               :: EvDo (Some (rangeHeader (Size info))) :: rest)
  /\ forall r2,
       range_response w = (Some r2, None) ->
       StatusCode r2 = StatusOK \/ StatusCode r2 = StatusPartialContent ->
       Header r2 "Accept-Ranges" = "bytes" \/ Header r2 "Content-Range" <> "" ->
       (exists rest,
          trace o = EvDo None :: EvStat name :: EvBodyClose
                    :: EvDo (Some (rangeHeader (Size info)))
                    :: EvOpenFile name :: rest)
       /\ (OpenFile w name = None ->
           (exists rest,
              trace o = EvDo None :: EvStat name :: EvBodyClose
                        :: EvDo (Some (rangeHeader (Size info)))
                        :: EvOpenFile name :: EvSeekEnd
                        :: EvStoreBytesRead (Size info) :: rest)
           /\ isResumable (final o) = true
           /\ totalFileSize (final o)
              = if ContentLength r2 >? 0
                then add64 (ContentLength r2) (Size info)
                else ContentLength r2).
Proof.
  intros name o Hreq Hfirst Hst Hstat Hfile Hsize. subst o.
  set (dt := newDownloadTask limit url hs).
  destruct (prepare w (mkSt dt 0)) as [[r s1] evs1] eqn:Hp.
  destruct (start_extends_prepare w dt r s1 evs1 Hp) as (rest & Htrace & _ & Hset).
  split.
  - pose proof (prepare_rerequests w limit url hs r1 info
                  Hreq Hfirst Hst Hstat Hfile Hsize) as H.
    unfold run in H. fold dt in H. rewrite Hp in H. destruct H as [rest1 H].
    cbn in H. subst evs1. rewrite Htrace. cbn. now eexists.
  - intros r2 Hsecond Hst2 Hconfirm.
    pose proof (prepare_resumes w limit url hs r1 info
                  Hreq Hfirst Hst Hstat Hfile Hsize r2 Hsecond Hst2 Hconfirm) as H.
    unfold run in H. fold dt in H. rewrite Hp in H.
    destruct H as (rest1 & Hevs & Hopened). cbn in Hevs, Hopened. split.
    + rewrite Htrace, Hevs. cbn. now eexists.
    + intros Hopen. destruct (Hopened Hopen) as (_ & Hevs' & _ & Hres & Htot).
      destruct Hset as (Hres' & Htot' & _).
      split; [| split; congruence].
      rewrite Htrace, Hevs'. cbn. now eexists.
Qed.

(** C1, as stated, fails: with ten bytes on disk and a range response
    of unknown length ([-1]) the total size is [-1], not [10 + -1]. *)
Lemma resume_total_not_sum :
  Stat chunkedResumeWorld "file.zip" = Some (mkFileInfo false 10)
  /\ range_response chunkedResumeWorld
     = (Some (partialResponse "/dl/file.zip" (-1)), None)
  /\ isResumable (final (start chunkedResumeWorld freshTask)) = true
  /\ totalFileSize (final (start chunkedResumeWorld freshTask)) = -1
  /\ totalFileSize (final (start chunkedResumeWorld freshTask)) <> 10 + -1.
Proof.
  repeat split. vm_compute. discriminate.
Qed.

Lemma start_resumes_existing_file_witness :
  isResumable (final (start resumeWorld freshTask)) = true
  /\ totalFileSize (final (start resumeWorld freshTask)) = 100.
Proof.
  pose proof (start_resumes_existing_file resumeWorld (-1)
                "http://host/dl/file.zip" [] (plainResponse "/dl/file.zip" 100)
                (mkFileInfo false 10)) as H.
  cbv zeta in H.
  assert (Hne : Size (mkFileInfo false 10)
                <> ContentLength (plainResponse "/dl/file.zip" 100))
    by (vm_compute; discriminate).
  specialize (H eq_refl eq_refl (or_introl eq_refl) eq_refl eq_refl Hne).
  destruct H as [_ H].
  assert (Hc : Header (partialResponse "/dl/file.zip" 90) "Accept-Ranges" = "bytes"
               \/ Header (partialResponse "/dl/file.zip" 90) "Content-Range" <> "")
    by (right; vm_compute; discriminate).
  specialize (H (partialResponse "/dl/file.zip" 90) eq_refl (or_intror eq_refl) Hc).
  destruct H as [_ H].
  destruct (H eq_refl) as (_ & Hres & Htot).
  unfold freshTask. split; [exact Hres |].
  rewrite Htot. vm_compute. reflexivity.
Defined.

(** ** Runs that end before the loop *)

Ltac unfold_run :=
  unfold start, start_body, prepare, resume, finish, recoverPanic,
    failRequest, failOpen, requestFailed, statusCode, clientDo, storeError,
    storeEndTime, closeCompletion, Now, called, bind, ret, emit, get, modify,
    panic, return_ in *.





(** The same holds for the request that is sent again with a [Range]
    header: when it is not accepted, the run ends with the error stored
    and without opening or creating a file. *)
Lemma start_rejects_failed_range_request (w : world) (limit : Z) (url : string)
    (hs : list (string * string)) (r1 : Response) (info : FileInfo) :
  let name := fst (extractFilename (ParseMediaType w) r1) in
  let o := start w (newDownloadTask limit url hs) in
  request_valid w = true ->
  first_response w = (Some r1, None) ->
  StatusCode r1 = StatusOK \/ StatusCode r1 = StatusPartialContent ->
  Stat w name = Some info ->
  IsDir info = false ->
  Size info <> ContentLength r1 ->
  (forall r, range_response w = (Some r, None) ->
             StatusCode r <> StatusOK /\ StatusCode r <> StatusPartialContent) ->
  trace o = [EvDo None; EvStat name; EvBodyClose;
             EvDo (Some (rangeHeader (Size info)));
             EvStoreError (Some (requestError (range_response w)));
             EvCloseCompletion; EvStoreEndTime (clock w 0)]
  /\ error_ (final o) = Some (requestError (range_response w))
  /\ escaped o = None.
Proof.
  intros name o Hreq Hfirst Hst Hstat Hfile Hsize Hfail. subst o.
  pose proof (status_accepted r1 Hst) as Hst'.
  apply Z.eqb_neq in Hsize. unfold name in *.
  unfold_run. rewrite Hreq. cbn. rewrite Hfirst. cbn. rewrite Hst'. cbn.
  rewrite Hstat. cbn. rewrite Hfile. cbn. rewrite Hsize. cbn.
  destruct (range_response w) as [[r |] [err |]] eqn:Hsecond; cbn;
    try (repeat split; fail).
  destruct (Hfail r eq_refl) as [H1 H2].
  apply Z.eqb_neq in H1, H2. rewrite H1, H2. cbn. repeat split.
Qed.

(** ** Short writes and failing opens, as the code runs them *)

(** C5 (the code at the failing inputs).  After a short write the loop
    stores [io.ErrShortWrite] and is left, and the store that follows the
    loop replaces it with the error of the write: none when the write
    reported none, the error of the file system otherwise.  The counter
    is not advanced. *)
Theorem short_write_error_overwritten :
  trace (start shortWriteWorld freshTask)
  = [EvDo None; EvStat "file.zip"; EvCreate "file.zip"; EvGoMonitorSpeed;
     EvRead; EvWrite 5; EvStoreError (Some io_ErrShortWrite);
     EvStoreError None; EvCloseCompletion; EvStoreEndTime 400000000]
  /\ error_ (final (start shortWriteWorld freshTask)) = None
  /\ bytesRead (final (start shortWriteWorld freshTask)) = 0
  /\ error_ (final (start diskFullWorld freshTask))
     = Some (externalError "no space left on device").
Proof.
  repeat split; vm_compute; reflexivity.
Qed.

(** C9 (the code at the failing inputs).  When creating the destination
    fails, and when reopening the existing file fails, the run closes the
    completion channel and returns without reading or writing, and
    without storing anything to the error field, which stays nil. *)
Theorem open_failure_stores_no_error :
  trace (start createFailsWorld freshTask)
  = [EvDo None; EvStat "file.zip"; EvCreate "file.zip"; EvCloseCompletion;
     EvStoreEndTime 0]
  /\ error_ (final (start createFailsWorld freshTask)) = None
  /\ trace (start reopenFailsWorld freshTask)
     = [EvDo None; EvStat "file.zip"; EvBodyClose; EvDo (Some "bytes=10-");
        EvOpenFile "file.zip"; EvCloseCompletion; EvStoreEndTime 0]
  /\ error_ (final (start reopenFailsWorld freshTask)) = None.
Proof.
  repeat split; vm_compute; reflexivity.
Qed.

(** ** Names handed to the file system, seeding of the counter *)

Lemma prepare_names_and_seeds (w : world) (s : st) :
  run (prepare w) s (fun r s' evs =>
    Forall (names_only (nameUsed w)) evs /\ (count_seeds evs <= 1)%nat).
Proof.
  repeat run_step.
  all: unfold nameUsed, count_seeds; cbn;
    repeat match goal with
           | H : first_response _ = _ |- _ => rewrite H; clear H
           end; cbn.
  all: split; [repeat constructor | lia].
Qed.

Lemma closing_events_plain (name : string) (evs : list event) :
  Forall (fun e => closing_event e = true) evs ->
  Forall (names_only name) evs /\ count_seeds evs = 0%nat.
Proof.
  unfold count_seeds. induction 1 as [| e rest He _ [IH1 IH2]]; simpl.
  - split; [constructor | reflexivity].
  - destruct e; simpl in *; try discriminate He;
      (split; [constructor; [exact I | exact IH1] | exact IH2]).
Qed.

Lemma start_names_and_seeds (w : world) (dt : downloadTask) :
  Forall (names_only (nameUsed w)) (trace (start w dt))
  /\ (count_seeds (trace (start w dt)) <= 1)%nat.
Proof.
  destruct (prepare w (mkSt dt 0)) as [[r s1] evs1] eqn:Hp.
  destruct (start_extends_prepare w dt r s1 evs1 Hp) as (rest & -> & Hrest & _).
  pose proof (prepare_names_and_seeds w (mkSt dt 0)) as H.
  unfold run in H. rewrite Hp in H. cbn in H. destruct H as [Hn Hs].
  destruct (closing_events_plain (nameUsed w) rest Hrest) as [Hn' Hs'].
  split; [apply Forall_app; now split |].
  unfold count_seeds in *. rewrite filter_app, List.length_app. lia.
Qed.

(** C4, as the code has it.  [extractFilename] rejects a derived name
    that is empty, ends in a slash or contains a NUL, and every failure
    is [ErrMissingFilename] with the empty name.  A derived name that
    contains ["../"] is not rejected for that: every accepted name is the
    last element of the derived name cleaned against the root, so it is a
    single path element, neither empty nor ["."] nor [".."], without
    slash and without NUL, and cannot designate anything outside the
    directory it is resolved in.  The only name that a run hands to
    [os.Stat], [os.OpenFile] and [os.Create] is the one that
    [extractFilename] returned. *)
Theorem extractFilename_sanitizes (w : world) (limit : Z) (url : string)
    (hs : list (string * string)) (response : Response) :
  let parse := ParseMediaType w in
  let derived := derivedName parse response in
  (derived = "" \/ HasSuffix_slash derived = true \/ Contains_NUL derived = true ->
   extractFilename parse response = ("", Some ErrMissingFilename))
  /\ (forall name err, extractFilename parse response = (name, Some err) ->
        name = "" /\ err = ErrMissingFilename)
  /\ (forall name, extractFilename parse response = (name, None) ->
        name = filepath_Base (path_Clean ("/" ++ derived))
        /\ single_component name)
  /\ Forall (names_only (nameUsed w))
       (trace (start w (newDownloadTask limit url hs))).
Proof.
  intros parse derived. split; [apply extractFilename_rejects |].
  split; [| split].
  - intros name err. unfold extractFilename.
    repeat match goal with
           | |- context [if ?b then _ else _] => destruct b
           end; intros E; inversion E; auto.
  - intros name. apply extractFilename_accepted.
  - apply start_names_and_seeds.
Qed.

(** C4, as stated, fails: a derived name that contains ["../"] is
    accepted, under its last element. *)
Lemma extractFilename_accepts_parent_reference :
  Contains (derivedName noParse (plainResponse "/files/../etc/passwd" 100)) "../"
  = true
  /\ extractFilename noParse (plainResponse "/files/../etc/passwd" 100)
     = ("passwd", None).
Proof.
  split; reflexivity.
Qed.

(** * Further properties *)

(** ** Strings *)

Lemma string_app_assoc (a b c : string) : (a ++ b) ++ c = a ++ b ++ c.
Proof. induction a as [| x a IH]; simpl; [reflexivity | now rewrite IH]. Qed.

Lemma string_app_nil_r (a : string) : a ++ "" = a.
Proof. induction a as [| x a IH]; simpl; [reflexivity | now rewrite IH]. Qed.

Lemma string_length_app (a b : string) :
  String.length (a ++ b) = (String.length a + String.length b)%nat.
Proof. induction a as [| x a IH]; simpl; [reflexivity | now rewrite IH]. Qed.

Lemma spaces_length (n : nat) : String.length (spaces n) = n.
Proof. induction n as [| n IH]; simpl; [reflexivity | now rewrite IH]. Qed.

(** ** [durationToString] *)

Lemma durationToString_below_minute (seconds : Z) :
  seconds < 60 -> durationToString seconds = fmt_2d seconds ++ "s".
Proof.
  intros H. rewrite (durationToString_equation_1 seconds).
  destruct (Z_lt_dec seconds 60); [| lia].
  now rewrite durationToString_clause_1_equation_1.
Qed.

Lemma durationToString_below_hour (seconds : Z) :
  60 <= seconds < 3600 ->
  durationToString seconds
  = if Z.rem seconds 60 =? 0 then fmt_2d (Z.quot seconds 60) ++ "m"
    else fmt_2d (Z.quot seconds 60) ++ "m" ++ fmt_2d (Z.rem seconds 60) ++ "s".
Proof.
  intros H. rewrite (durationToString_equation_1 seconds).
  destruct (Z_lt_dec seconds 60); [lia |].
  rewrite durationToString_clause_1_equation_2.
  destruct (Z_lt_dec seconds 3600); [| lia].
  now rewrite durationToString_clause_1_clause_2_equation_1.
Qed.

Lemma durationToString_from_hour (seconds : Z) :
  3600 <= seconds ->
  durationToString seconds
  = if Z.rem seconds 3600 =? 0 then fmt_2d (Z.quot seconds 3600) ++ "h"
    else fmt_2d (Z.quot seconds 3600) ++ "h"
         ++ durationToString (Z.rem seconds 3600).
Proof.
  intros H. rewrite (durationToString_equation_1 seconds).
  destruct (Z_lt_dec seconds 60); [lia |].
  rewrite durationToString_clause_1_equation_2.
  destruct (Z_lt_dec seconds 3600); [lia |].
  now rewrite durationToString_clause_1_clause_2_equation_2.
Qed.

(** X1.  A duration of [h] hours, [m] minutes and [s] seconds is
    written with one field per unit, largest first, each number
    right-justified on two columns; a field whose value is zero is left
    out, except that a duration below one minute is always written in
    seconds. *)
Theorem durationToString_fields (h m s : Z) :
  0 <= h -> 0 <= m < 60 -> 0 <= s < 60 ->
  durationToString (h * 3600 + m * 60 + s)
  = let seconds := if s =? 0 then "" else fmt_2d s ++ "s" in
    let minutes := if m =? 0 then "" else fmt_2d m ++ "m" in
    if (h =? 0) && (m =? 0) then fmt_2d s ++ "s"
    else (if h =? 0 then "" else fmt_2d h ++ "h") ++ minutes ++ seconds.
Proof.
  intros Hh Hm Hs. cbv zeta.
  assert (Hlow : forall m s, 0 <= m < 60 -> 0 <= s < 60 -> 0 < m * 60 + s ->
            durationToString (m * 60 + s)
            = (if m =? 0 then "" else fmt_2d m ++ "m")
              ++ (if s =? 0 then "" else fmt_2d s ++ "s")).
  { clear. intros m s Hm Hs Hpos. destruct (Z.eqb_spec m 0) as [-> | Hm0].
    - rewrite durationToString_below_minute by lia.
      destruct (Z.eqb_spec s 0); [lia |]. reflexivity.
    - rewrite durationToString_below_hour by lia.
      rewrite Z.add_comm, Z.rem_add by lia.
      rewrite (Z.add_comm s), Z.add_comm, Z.quot_add by lia.
      rewrite (Z.rem_small s 60), (Z.quot_small s 60) by lia.
      rewrite Z.add_0_l.
      destruct (Z.eqb_spec s 0);
        [now rewrite string_app_nil_r | now rewrite string_app_assoc]. }
  destruct (Z.eqb_spec h 0) as [-> | Hh0]; cbn [andb].
  - destruct (Z.eqb_spec m 0) as [-> | Hm0].
    + now rewrite durationToString_below_minute by lia.
    + rewrite Z.mul_0_l, Z.add_0_l, Hlow by lia.
      destruct (Z.eqb_spec m 0); [lia | reflexivity].
  - rewrite durationToString_from_hour by lia.
    replace (h * 3600 + m * 60 + s) with (m * 60 + s + h * 3600) by lia.
    rewrite Z.rem_add, Z.quot_add by lia.
    rewrite (Z.rem_small (m * 60 + s) 3600), (Z.quot_small (m * 60 + s) 3600)
      by lia.
    rewrite Z.add_0_l.
    destruct (Z.eqb_spec (m * 60 + s) 0) as [E | E].
    + assert (m = 0 /\ s = 0) as [-> ->] by lia. cbn [Z.eqb].
      now rewrite !string_app_nil_r.
    + rewrite Hlow by lia. now rewrite string_app_assoc.
Qed.

Lemma durationToString_fields_witness :
  durationToString (1 * 3600 + 2 * 60 + 5) = " 1h 2m 5s".
Proof.
  rewrite durationToString_fields by lia. reflexivity.
Defined.

(** ** [extractFilename] on plain names *)

Lemma split_slash_plain (l : chars) : ~ In slash l -> split_slash l = [l].
Proof.
  induction l as [| c r IH]; simpl; intros H; [reflexivity |].
  destruct (is_slash c) eqn:Hc.
  - apply is_slash_true in Hc. subst. exfalso. apply H. now left.
  - rewrite IH by tauto. reflexivity.
Qed.

Lemma Base_Clean_plain (l : chars) :
  real_element l -> ~ In slash l ->
  Base_chars (Clean_chars (slash :: l)) = l.
Proof.
  intros (Hne & Hdot & Hdd) Hs. unfold Clean_chars.
  change (is_slash slash) with true. cbv iota.
  change (split_slash (slash :: l)) with ([] :: split_slash l).
  rewrite split_slash_plain by assumption. cbn [fold_left].
  assert (Hstep : clean_element true (clean_element true [] []) l = [l]).
  { cbn [clean_element]. unfold clean_element.
    destruct l as [| c r]; [congruence |].
    apply chars_eqb_neq in Hdot, Hdd. now rewrite Hdot, Hdd. }
  rewrite Hstep. cbn [rev app join_slash].
  apply (Base_chars_rooted [] l Hne Hs).
Qed.

(** X2.  A derived name that is already a single path element (not
    empty, not a dot name, without slash and without NUL) is accepted
    and returned unchanged. *)
Theorem extractFilename_keeps_plain_name (parse : MediaTypeParser)
    (response : Response) (name : string) :
  derivedName parse response = name ->
  single_component name ->
  extractFilename parse response = (name, None).
Proof.
  intros Hd (Hne & Hdot & Hdd & Hslash & Hnul). unfold extractFilename.
  rewrite Hd.
  assert (E1 : String.eqb name "" = false) by now apply String.eqb_neq.
  assert (E2 : HasSuffix_slash name = false).
  { unfold HasSuffix_slash.
    destruct (rev (list_ascii_of_string name)) as [| c r] eqn:Hr; [reflexivity |].
    destruct (is_slash c) eqn:Hc; [| reflexivity].
    apply is_slash_true in Hc. subst c. exfalso. apply Hslash.
    apply in_rev. rewrite Hr. now left. }
  assert (E3 : Contains_NUL name = false).
  { unfold Contains_NUL. apply not_true_is_false. intros H.
    apply existsb_exists in H. destruct H as (c & Hin & Hc).
    apply Ascii.eqb_eq in Hc. subst c. contradiction. }
  rewrite E1, E2, E3. cbn [orb].
  assert (Hback : filepath_Base (path_Clean ("/" ++ name)) = name).
  { unfold filepath_Base, path_Clean.
    rewrite list_ascii_of_string_of_list_ascii.
    change (list_ascii_of_string ("/" ++ name))
      with (slash :: list_ascii_of_string name).
    rewrite Base_Clean_plain; [apply string_of_list_ascii_of_string | | exact Hslash].
    repeat split; intros E;
      apply (f_equal string_of_list_ascii) in E;
      rewrite string_of_list_ascii_of_string in E; auto. }
  rewrite Hback, E1.
  assert (E4 : String.eqb name "." = false) by now apply String.eqb_neq.
  assert (E5 : String.eqb name "/" = false).
  { apply String.eqb_neq. intros ->. apply Hslash. now left. }
  now rewrite E4, E5.
Qed.

Lemma extractFilename_keeps_plain_name_witness :
  extractFilename noParse (plainResponse "file.zip" 100) = ("file.zip", None).
Proof.
  apply extractFilename_keeps_plain_name; [reflexivity |].
  repeat split; try discriminate; vm_compute; intuition discriminate.
Defined.

(** ** [extractRateLimit] *)

Lemma Split_colon_nonempty (s : string) : Split_colon s <> [].
Proof.
  destruct s as [| c r]; simpl; [discriminate |].
  destruct (Ascii.eqb c colon); [discriminate |].
  destruct (Split_colon r); discriminate.
Qed.

Lemma Split_colon_plain (s : string) :
  Contains_colon s = false -> Split_colon s = [s].
Proof.
  induction s as [| c r IH]; simpl; [reflexivity |].
  destruct (Ascii.eqb c colon); simpl; [discriminate |].
  intros H. now rewrite IH.
Qed.

Lemma Split_colon_prefix (prefix rest : string) :
  Contains_colon prefix = false ->
  Split_colon (prefix ++ ":" ++ rest) = prefix :: Split_colon rest.
Proof.
  change (":" ++ rest) with (String colon rest).
  induction prefix as [| c r IH]; [reflexivity |].
  cbn [append Split_colon Contains_colon].
  destruct (Ascii.eqb c colon); simpl; [discriminate |].
  intros H. now rewrite IH.
Qed.

(** Joining what was split gives the text back. *)
Lemma Join_Split_colon (s : string) : Join_colon (Split_colon s) = s.
Proof.
  induction s as [| c r IH]; simpl; [reflexivity |].
  destruct (Ascii.eqb_spec c colon) as [-> | Hc].
  - destruct (Split_colon r) as [| h t] eqn:E.
    + now destruct (Split_colon_nonempty r).
    + change (Join_colon ("" :: h :: t)) with (":" ++ Join_colon (h :: t)).
      now rewrite IH.
  - destruct (Split_colon r) as [| h t] eqn:E.
    + now destruct (Split_colon_nonempty r).
    + destruct t as [| h2 t]; simpl in *; now rewrite <- IH.
Qed.

(** X3.  An argument without a colon carries no limit: the limit is
    [-1] and the URL is the argument. *)
Theorem extractRateLimit_no_colon (ParseInt : IntParser) (url : string) :
  Contains_colon url = false ->
  extractRateLimit ParseInt url = (-1, url).
Proof.
  intros H. unfold extractRateLimit. now rewrite Split_colon_plain.
Qed.

Lemma extractRateLimit_no_colon_witness :
  extractRateLimit parseDecimal "localhost" = (-1, "localhost").
Proof.
  apply extractRateLimit_no_colon. reflexivity.
Defined.

(** X4.  An argument is cut at its first colon only.  When the text
    before it parses as an integer, that integer is the limit and the
    URL is everything after the first colon, later colons included; when
    it does not parse, the limit is [-1] and the URL is the whole
    argument. *)
Theorem extractRateLimit_first_colon (ParseInt : IntParser)
    (prefix rest : string) :
  Contains_colon prefix = false ->
  extractRateLimit ParseInt (prefix ++ ":" ++ rest)
  = match ParseInt prefix with
    | Some limit => (limit, rest)
    | None => (-1, prefix ++ ":" ++ rest)
    end.
Proof.
  intros H. unfold extractRateLimit. rewrite Split_colon_prefix by exact H.
  destruct (Split_colon rest) as [| h t] eqn:E.
  - now destruct (Split_colon_nonempty rest).
  - cbn [List.length Nat.leb nth tl]. rewrite <- E, Join_Split_colon.
    reflexivity.
Qed.

Lemma extractRateLimit_first_colon_witness :
  extractRateLimit parseDecimal ("50" ++ ":" ++ "http://host:8080/f")
  = (50, "http://host:8080/f")
  /\ extractRateLimit parseDecimal ("http" ++ ":" ++ "//host:8080/f")
     = (-1, "http://host:8080/f").
Proof.
  split; rewrite extractRateLimit_first_colon by reflexivity; reflexivity.
Defined.

(** ** [parseHeaders] *)

Lemma parseHeaders_fold_filter (TrimSpace : string -> string)
    (hs : list string) (acc : StringMap) :
  fold_left (parseHeader TrimSpace) hs acc
  = fold_left (parseHeader TrimSpace) (filter Contains_colon hs) acc.
Proof.
  revert acc. induction hs as [| h hs IH]; intros acc; simpl; [reflexivity |].
  destruct (Contains_colon h) eqn:Hc; simpl.
  - apply IH.
  - unfold parseHeader at 2. rewrite Hc. apply IH.
Qed.

(** X5.  Header strings without a colon are dropped without a trace: the
    map is the one built from the strings that have a colon. *)
Theorem parseHeaders_drops_malformed (TrimSpace : string -> string)
    (headerStrings : list string) :
  parseHeaders TrimSpace headerStrings
  = parseHeaders TrimSpace (filter Contains_colon headerStrings).
Proof.
  apply parseHeaders_fold_filter.
Qed.

Lemma Contains_colon_cut (a b : string) :
  Contains_colon (a ++ ":" ++ b) = true.
Proof.
  change (":" ++ b) with (String colon b).
  induction a as [| c r IH]; simpl; [reflexivity |].
  rewrite IH. apply orb_true_r.
Qed.

Lemma SplitN2_colon_cut (a b : string) :
  Contains_colon a = false -> SplitN2_colon (a ++ ":" ++ b) = [a; b].
Proof.
  change (":" ++ b) with (String colon b).
  induction a as [| c r IH]; [reflexivity |].
  cbn [append SplitN2_colon Contains_colon].
  destruct (Ascii.eqb c colon); simpl; [discriminate |].
  intros H. now rewrite IH.
Qed.

Lemma map_get_set (k k' v : string) (m : StringMap) :
  map_get k (map_set k' v m)
  = if String.eqb k' k then Some v else map_get k m.
Proof.
  unfold map_set. cbn [map_get]. destruct (String.eqb k' k) eqn:E; [reflexivity |].
  induction m as [| [k2 v2] m IH]; [reflexivity |].
  cbn [filter fst map_get].
  destruct (String.eqb k2 k') eqn:E2; cbn [negb].
  - apply String.eqb_eq in E2. subst k2. now rewrite E.
  - cbn [map_get]. now rewrite IH.
Qed.

(** X6.  A header string is cut at its first colon: the trimmed text
    before it is the key, the trimmed text after it (with any further
    colon) is the value.  The last string for a key decides its value,
    and the other keys keep theirs. *)
Theorem parseHeaders_last_wins (TrimSpace : string -> string)
    (headerStrings : list string) (key value k : string) :
  Contains_colon key = false ->
  map_get k (parseHeaders TrimSpace (headerStrings ++ [key ++ ":" ++ value]))
  = if String.eqb (TrimSpace key) k then Some (TrimSpace value)
    else map_get k (parseHeaders TrimSpace headerStrings).
Proof.
  intros Hkey. unfold parseHeaders. rewrite fold_left_app. cbn [fold_left].
  unfold parseHeader at 1.
  rewrite Contains_colon_cut, SplitN2_colon_cut by exact Hkey.
  cbn [nth]. apply map_get_set.
Qed.

Lemma parseHeaders_last_wins_witness :
  map_get "Authorization"
    (parseHeaders (fun s => s)
       (["Authorization:old"; "no colon here"]
        ++ ["Authorization" ++ ":" ++ "Bearer a:b"]))
  = Some "Bearer a:b".
Proof.
  rewrite parseHeaders_last_wins by reflexivity. reflexivity.
Defined.

(** ** Runs as a whole *)

Lemma finish_result (w : world) (err : option error) (s : st) :
  completionClosed (task s) = false ->
  exists s3 evs3,
    finish w err s = (Normal tt, s3, evs3)
    /\ Forall (fun e => end_event e = true) evs3
    /\ kept_to_the_end (task s) (task s3)
    /\ error_ (task s3) = err.
Proof.
  intros Hopen. unfold finish, storeError, closeCompletion, storeEndTime, Now,
    bind, modify, emit, get, panic. cbn. rewrite Hopen. cbn.
  do 2 eexists. split; [reflexivity |].
  repeat split; repeat constructor.
Qed.

Lemma recoverPanic_result (w : world) (v : panicValue) (s : st) :
  completionClosed (task s) = false ->
  exists s3 evs3,
    recoverPanic w v s = (Normal tt, s3, evs3)
    /\ Forall (fun e => end_event e = true) evs3
    /\ kept_to_the_end (task s) (task s3)
    /\ error_ (task s3) = Some (recovered v).
Proof.
  intros Hopen. unfold recoverPanic, storeError, closeCompletion, storeEndTime,
    Now, bind, modify, emit, get, panic. cbn. rewrite Hopen. cbn.
  do 2 eexists. split; [reflexivity |].
  repeat split; repeat constructor.
Qed.

(** A run that reaches the loop is the trace of [prepare], the trace of
    the loop and the events of the end; the end only stores the error,
    closes the channel and stores the end time. *)
Lemma start_through_loop (w : world) (dt : downloadTask) s1 evs1 :
  completionClosed dt = false ->
  prepare w (mkSt dt 0) = (Normal tt, s1, evs1) ->
  exists r2 s2 evs2 evs3,
    transfer w (body w) s1 = (r2, s2, evs2)
    /\ trace (start w dt) = (evs1 ++ evs2 ++ evs3)%list
    /\ Forall (fun e => end_event e = true) evs3
    /\ kept_to_the_end (task s2) (final (start w dt))
    /\ error_ (final (start w dt)) = errorAfterLoop r2
    /\ escaped (start w dt) = None.
Proof.
  intros Hopen Hp.
  pose proof (prepare_shape w (mkSt dt 0) Hopen) as Hshape.
  unfold run in Hshape. rewrite Hp in Hshape. cbn in Hshape.
  destruct Hshape as [Hopen1 _].
  destruct (transfer w (body w) s1) as [[r2 s2] evs2] eqn:Ht.
  pose proof (transfer_frame w (body w) s1) as Hf.
  unfold run in Hf. rewrite Ht in Hf. cbn in Hf.
  destruct Hf as (Hr & [Hc _] & _).
  assert (Hopen2 : completionClosed (task s2) = false) by congruence.
  exists r2, s2, evs2.
  unfold start, start_body, bind. rewrite Hp, Ht.
  destruct r2 as [err | | v]; [| congruence |].
  - destruct (finish_result w err s2 Hopen2) as (s3 & evs3 & -> & He & Hk & Herr).
    exists evs3. cbn. repeat split; try apply Hk; assumption.
  - destruct (recoverPanic_result w v s2 Hopen2)
      as (s3 & evs3 & -> & He & Hk & Herr).
    exists evs3. cbn. rewrite <- app_assoc.
    repeat split; try apply Hk; assumption.
Qed.

(** A run that does not reach the loop is the trace of [prepare] and, when
    [prepare] panicked, the events of the end. *)
Lemma start_without_loop (w : world) (dt : downloadTask) r s1 evs1 :
  completionClosed dt = false ->
  prepare w (mkSt dt 0) = (r, s1, evs1) ->
  (forall u, r <> Normal u) ->
  exists evs3,
    trace (start w dt) = (evs1 ++ evs3)%list
    /\ Forall (fun e => end_event e = true) evs3
    /\ kept_to_the_end (task s1) (final (start w dt)).
Proof.
  intros Hopen Hp Hr.
  pose proof (prepare_shape w (mkSt dt 0) Hopen) as Hshape.
  unfold run in Hshape. rewrite Hp in Hshape. cbn in Hshape.
  unfold start, start_body, bind. rewrite Hp.
  destruct r as [u | | v].
  - now destruct (Hr u).
  - exists []. cbn. rewrite app_nil_r. repeat split. constructor.
  - destruct Hshape as [Hopen1 _].
    destruct (recoverPanic_result w v s1 Hopen1)
      as (s3 & evs3 & -> & He & Hk & _).
    exists evs3. cbn. repeat split; try apply Hk; assumption.
Qed.

(** ** Runs that need not end *)

Lemma turn_fault_leaves (turn : iteration) (v : panicValue) :
  turn_fault turn = Some v -> leaves_loop turn = true.
Proof.
  unfold turn_fault, leaves_loop, written_in_full.
  destruct (it_read turn) as [[n err] | v']; [| reflexivity].
  destruct (n >? 0); [| discriminate].
  destruct (n >? bufferSize); [reflexivity |]. cbn [andb negb].
  destruct (it_write turn) as [[m werr] | v']; [discriminate | reflexivity].
Qed.














(** ** The counter and the writes *)

Lemma adds_app (a b : list event) : adds (a ++ b) = (adds a ++ adds b)%list.
Proof.
  induction a as [| e a IH]; [reflexivity |].
  destruct e; cbn; rewrite ?IH; reflexivity.
Qed.

Lemma adds_follow_writes_app (prev : option event) (a b : list event) :
  adds_follow_writes prev a ->
  (forall p, adds_follow_writes p b) ->
  adds_follow_writes prev (a ++ b).
Proof.
  intros Ha Hb. revert prev Ha.
  induction a as [| e a IH]; intros prev Ha; [apply Hb |].
  destruct Ha as [He Ha]. split; [exact He | now apply IH].
Qed.

Lemma no_adds_follow (evs : list event) :
  adds evs = [] -> forall p, adds_follow_writes p evs.
Proof.
  induction evs as [| e evs IH]; intros Hn p; [exact I |].
  destruct e; cbn in Hn; try discriminate Hn; split; auto.
Qed.

Lemma end_events_no_adds (evs : list event) :
  Forall (fun e => end_event e = true) evs -> adds evs = [].
Proof.
  induction 1 as [| e l H _ IH]; [reflexivity |].
  destruct e; cbn in *; try discriminate H; exact IH.
Qed.

(** The additions that the loop makes are the writes in full of its
    turns, and each comes directly after its call of [Write]. *)
Lemma transfer_credits (w : world) (turns : list iteration) :
  forall s,
    run (transfer w turns) s (fun r s' evs =>
      adds evs = credited turns /\ forall p, adds_follow_writes p evs).
Proof.
  induction turns as [| turn rest IH]; intros s; simpl;
    apply run_bind; (eapply run_weaken; [apply limiterWait_frame |]);
    intros r s1 evs1 (-> & _ & _ & He);
    assert (Hev : adds evs1 = [])
      by (destruct He as [-> | [d ->]]; reflexivity);
    clear He; repeat run_step;
    try (eapply run_weaken; [apply IH |]; intros ? ? ? (Ha2 & Hf2)).
  all: split;
    [ rewrite ?adds_app, ?Hev; cbn [adds app]
    | intros p; apply adds_follow_writes_app;
      [ apply no_adds_follow; exact Hev
      | intros p'; cbn [app adds_follow_writes]; repeat split; auto ] ].
  all: try reflexivity.
  all: subst; unfold leaves_loop, written_in_full.
  all: repeat match goal with
              | H : it_read _ = _ |- _ => rewrite H; clear H
              | H : it_write _ = _ |- _ => rewrite H; clear H
              | H : (_ >? _) = _ |- _ => rewrite H; clear H
              end.
  all: cbn [andb negb].
  all: repeat match goal with
              | H : context [match ?e with Some _ => _ | None => _ end] |- _ =>
                  destruct e
              | H : context [?a =? ?b] |- _ => destruct (a =? b)
              end.
  all: cbn in *; try discriminate; try congruence; auto.
Qed.

(** Before the loop nothing is added to the counter, and a store to it
    is of the size of the existing file, which is not a directory and was
    opened. *)
Lemma prepare_seeds (w : world) (s : st) :
  run (prepare w) s (fun r s' evs =>
    adds evs = []
    /\ forall v, In (EvStoreBytesRead v) evs ->
         exists info,
           Stat w (nameUsed w) = Some info
           /\ IsDir info = false
           /\ OpenFile w (nameUsed w) = None
           /\ v = Size info).
Proof.
  repeat run_step.
  all: unfold nameUsed; cbn;
    repeat match goal with
           | H : first_response _ = _ |- _ => rewrite H; clear H
           end; cbn.
  all: split; [reflexivity |].
  all: intros v Hin;
    repeat (destruct Hin as [Hin | Hin]; try discriminate Hin);
    try contradiction.
  all: inversion Hin; subst.
  all: eexists; split; [eassumption |].
  all: split; [| split; [assumption | reflexivity]].
  all: match goal with
       | H : negb (IsDir ?i) = true |- IsDir ?i = false =>
           destruct (IsDir i); [discriminate H | reflexivity]
       end.
Qed.

Lemma closing_events_no_seed (evs : list event) (v : Z) :
  Forall (fun e => closing_event e = true) evs ->
  ~ In (EvStoreBytesRead v) evs.
Proof.
  intros H Hin. rewrite Forall_forall in H. specialize (H _ Hin).
  discriminate H.
Qed.

(** C10.  When file sizes are not negative and the bytes on disk plus
    the bytes delivered fit the counter, no store to the bytes-read
    counter during a run of [start] on a new task lowers it.  It is
    seeded at most once, and only with the size of the existing file,
    which is not a directory and was opened.  What is added to it are
    the byte counts of the turns whose write returned that same count
    and no error, in order, up to the turn that leaves the loop, and
    nothing when the loop is not reached; each addition comes directly
    after the call of [Write] with that count.  The counter in the task
    is the value these stores leave.  After the completion channel is
    closed the run stores neither to the counter nor to the error
    field. *)
Theorem bytesRead_monotone_and_settled (w : world) (limit : Z) (url : string)
    (hs : list (string * string)) :
  counter_fits w ->
  let dt := newDownloadTask limit url hs in
  let o := start w dt in
  counter_monotone 0 (trace o)
  /\ (count_seeds (trace o) <= 1)%nat
  /\ (forall v, In (EvStoreBytesRead v) (trace o) ->
        exists info,
          Stat w (nameUsed w) = Some info
          /\ IsDir info = false
          /\ OpenFile w (nameUsed w) = None
          /\ v = Size info)
  /\ adds (trace o)
     = match fst (fst (prepare w (mkSt dt 0))) with
       | Normal _ => credited (body w)
       | _ => []
       end
  /\ adds_follow_writes None (trace o)
  /\ counter_after 0 (trace o) = bytesRead (final o)
  /\ Forall (fun e => is_store e = false) (after_close (trace o)).
Proof.
  intros Hfits dt o. subst o.
  destruct (start_counter w dt eq_refl Hfits) as [Hmono Hafter].
  destruct (start_shape w dt eq_refl) as (_ & _ & Hends).
  apply ends_with_close_after in Hends. destruct Hends as [t Hends].
  split; [exact Hmono |]. split; [apply start_names_and_seeds |].
  destruct (prepare w (mkSt dt 0)) as [[r s1] evs1] eqn:Hp.
  pose proof (prepare_seeds w (mkSt dt 0)) as Hprep.
  unfold run in Hprep. rewrite Hp in Hprep. cbn [fst snd] in Hprep.
  destruct Hprep as [Hadds1 Hseed1].
  split.
  { destruct (start_extends_prepare w dt r s1 evs1 Hp) as (rest & -> & Hrest & _).
    intros v Hin. apply in_app_or in Hin. destruct Hin as [Hin | Hin].
    - now apply Hseed1.
    - now destruct (closing_events_no_seed rest v Hrest). }
  assert (Hloop : adds (trace (start w dt))
                  = match r with
                    | Normal _ => credited (body w)
                    | _ => []
                    end
                  /\ adds_follow_writes None (trace (start w dt))).
  { assert (Hcases : (exists u, r = Normal u) \/ forall u, r <> Normal u)
      by (destruct r; [left; eauto | right; discriminate | right; discriminate]).
    destruct Hcases as [[[] ->] | Hr].
    - destruct (start_through_loop w dt s1 evs1 eq_refl Hp)
        as (r2 & s2 & evs2 & evs3 & Ht & -> & He & _).
      pose proof (transfer_credits w (body w) s1) as Hc.
      unfold run in Hc. rewrite Ht in Hc. cbn [fst snd] in Hc.
      destruct Hc as [Hadds2 Hfollow2].
      pose proof (end_events_no_adds evs3 He) as Hadds3.
      split.
      + rewrite !adds_app, Hadds1, Hadds2, Hadds3. cbn.
        now rewrite app_nil_r.
      + apply adds_follow_writes_app; [now apply no_adds_follow |].
        intros p. apply adds_follow_writes_app; [apply Hfollow2 |].
        now apply no_adds_follow.
    - destruct (start_without_loop w dt r s1 evs1 eq_refl Hp Hr)
        as (evs3 & -> & He & _).
      pose proof (end_events_no_adds evs3 He) as Hadds3.
      split.
      + rewrite adds_app, Hadds1, Hadds3.
        destruct r as [u | |]; [now destruct (Hr u) | reflexivity | reflexivity].
      + apply adds_follow_writes_app; now apply no_adds_follow. }
  destruct Hloop as [Hadds Hfollow].
  split; [exact Hadds |]. split; [exact Hfollow |].
  split; [exact Hafter |].
  rewrite Hends. repeat constructor.
Qed.

Lemma bytesRead_monotone_and_settled_witness :
  adds (trace (start resumeWorld freshTask)) = [60; 30]
  /\ counter_after 0 (trace (start resumeWorld freshTask)) = 100.
Proof.
  pose proof (bytesRead_monotone_and_settled resumeWorld (-1)
                "http://host/dl/file.zip" []) as H.
  cbv zeta in H.
  assert (Hfits : counter_fits resumeWorld).
  { split; [vm_compute; discriminate |].
    intros name info Hs. inversion Hs; subst.
    split; vm_compute; discriminate. }
  destruct (H Hfits) as (_ & _ & _ & Hadds & _ & Hafter & _).
  unfold freshTask. split.
  - rewrite Hadds. vm_compute. reflexivity.
  - rewrite Hafter. vm_compute. reflexivity.
Defined.

(** ** The limiter in a run *)

Lemma limiterWait_inert (w : world) (s : st) :
  limit (rateLimiter_ (task s)) <= 0 ->
  limiterWait w s = (Normal tt, s, []).
Proof.
  intros H. unfold limiterWait.
  destruct (Z.gtb_spec (limit (rateLimiter_ (task s))) 0); [lia | reflexivity].
Qed.

Lemma transfer_inert (w : world) (turns : list iteration) :
  forall s,
    limit (rateLimiter_ (task s)) <= 0 ->
    run (transfer w turns) s (quiet_limiter s).
Proof.
  induction turns as [| turn rest IH]; intros s Hlim; simpl;
    apply run_bind; apply run_intro; intros r s1 evs1 Hw;
    rewrite (limiterWait_inert w s Hlim) in Hw;
    inversion Hw; subst r s1 evs1; clear Hw;
    repeat run_step;
    try (eapply run_weaken; [apply IH; exact Hlim |];
         intros ? ? ? (H1 & H2 & H3));
    unfold quiet_limiter; cbn; repeat split; try assumption;
    repeat constructor; assumption.
Qed.

Lemma prepare_no_sleep (w : world) (s : st) :
  run (prepare w) s (fun r s' evs =>
    rateLimiter_ (task s') = rateLimiter_ (task s)
    /\ Forall (fun e => is_sleep e = false) evs).
Proof.
  repeat run_step. all: cbn; split; [reflexivity | repeat constructor].
Qed.

Lemma end_events_no_sleep (evs : list event) :
  Forall (fun e => end_event e = true) evs ->
  Forall (fun e => is_sleep e = false) evs.
Proof.
  apply Forall_impl. intros e. destruct e; simpl; congruence.
Qed.

(** X7.  A task whose ceiling is zero or negative never sleeps: its run
    contains no call of [time.Sleep], and its limiter is at the end what
    it was at the start. *)
Theorem start_never_sleeps_without_limit (w : world) (dt : downloadTask) :
  completionClosed dt = false ->
  limit (rateLimiter_ dt) <= 0 ->
  Forall (fun e => is_sleep e = false) (trace (start w dt))
  /\ rateLimiter_ (final (start w dt)) = rateLimiter_ dt.
Proof.
  intros Hopen Hlim.
  destruct (prepare w (mkSt dt 0)) as [[r s1] evs1] eqn:Hp.
  pose proof (prepare_no_sleep w (mkSt dt 0)) as H1.
  unfold run in H1. rewrite Hp in H1. cbn in H1. destruct H1 as [Hrl1 Hns1].
  destruct r as [[] | | v].
  - destruct (start_through_loop w dt s1 evs1 Hopen Hp)
      as (r2 & s2 & evs2 & evs3 & Ht & -> & He & Hk & _).
    pose proof (transfer_inert w (body w) s1 ltac:(rewrite Hrl1; exact Hlim)) as H2.
    unfold run in H2. rewrite Ht in H2. cbn in H2.
    destruct H2 as (Hrl2 & _ & Hns2).
    split.
    + rewrite !Forall_app. repeat split; try assumption.
      now apply end_events_no_sleep.
    + destruct Hk as (_ & _ & _ & _ & Hrl3 & _). congruence.
  - destruct (start_without_loop w dt _ s1 evs1 Hopen Hp ltac:(discriminate))
      as (evs3 & -> & He & Hk).
    split.
    + rewrite Forall_app. split; [assumption | now apply end_events_no_sleep].
    + destruct Hk as (_ & _ & _ & _ & Hrl3 & _). congruence.
  - destruct (start_without_loop w dt _ s1 evs1 Hopen Hp ltac:(discriminate))
      as (evs3 & -> & He & Hk).
    split.
    + rewrite Forall_app. split; [assumption | now apply end_events_no_sleep].
    + destruct Hk as (_ & _ & _ & _ & Hrl3 & _). congruence.
Qed.

Lemma start_never_sleeps_without_limit_witness :
  Forall (fun e => is_sleep e = false)
    (trace (start freshWorld (newDownloadTaskOf parseDecimal "http://host/dl/file.zip" []))).
Proof.
  apply start_never_sleeps_without_limit; [reflexivity | vm_compute; discriminate].
Defined.

(** X8.  When [wait] sleeps, under a clock that has not gone back since
    the checkpoint, it sleeps no less than nothing and no more than a
    second; and if the clock read after the sleep is at least the sleep
    later than the clock read on entry, the new checkpoint is at least a
    second after the old one. *)
Theorem wait_checkpoints_a_second_apart (rl rl' : rateLimiter)
    (currentBytesRead : Z) (now after : Time) (d : Duration) :
  lastCheckTime rl <= now ->
  wait rl currentBytesRead now after = (rl', Some d) ->
  0 <= d <= Second
  /\ (now + d <= after -> lastCheckTime rl + Second <= lastCheckTime rl')
  /\ lastReadBytes rl' = currentBytesRead
  /\ limit rl' = limit rl.
Proof.
  intros Hclock. unfold wait. rewrite (Time_Sub_monotonic _ _ Hclock).
  unfold Second, max_int64.
  destruct (Z.leb_spec (Z.min (2 ^ 63 - 1) (now - lastCheckTime rl)) 1000000000)
    as [Hle | Hgt]; [| discriminate].
  destruct (sub64 currentBytesRead (lastReadBytes rl) >=? limit rl);
    [| discriminate].
  intros E. inversion E; subst rl' d; clear E. cbn.
  replace (Z.min (2 ^ 63 - 1) (now - lastCheckTime rl))
    with (now - lastCheckTime rl) in * by lia.
  unfold sub64. rewrite wrap64_id
    by (unfold in_int64, min_int64, max_int64; lia).
  repeat split; lia.
Qed.

Lemma wait_checkpoints_a_second_apart_witness :
  0 <= 600000000 <= Second.
Proof.
  apply (wait_checkpoints_a_second_apart (mkRateLimiter 0 0 50000)
           (mkRateLimiter 60000 1000000000 50000) 60000 400000000 1000000000
           600000000); [simpl; lia | reflexivity].
Defined.

(** ** Complete downloads *)

Lemma transfer_full (w : world) (turns : list iteration) :
  forall s,
    Forall full_turn turns ->
    0 <= bytesRead (task s) ->
    bytesRead (task s) + offered turns <= max_int64 ->
    run (transfer w turns) s (fun r s' evs =>
      r = Normal (Some io_EOF)
      /\ bytesRead (task s') = bytesRead (task s) + offered turns
      /\ count_writes evs = List.length turns).
Proof.
  induction turns as [| turn rest IH]; intros s Hfull Hlo Hhi; simpl;
    apply run_bind; (eapply run_weaken; [apply limiterWait_frame |]);
    intros r s1 evs1 (-> & _ & Hb & He).
  - repeat run_step. cbn. rewrite Hb.
    destruct He as [-> | [d ->]]; repeat split; lia.
  - inversion Hfull as [| ? ? (n & Hn & Hread & Hwrite) Hrest]; subst.
    simpl in Hhi. unfold delivered in Hhi. rewrite Hread in Hhi.
    pose proof (offered_nonneg rest).
    rewrite Hread, Hwrite.
    assert (H1 : (n >? 0) = true) by (apply Z.gtb_lt; lia).
    assert (H2 : (n >? bufferSize) = false).
    { destruct (Z.gtb_spec n bufferSize); [lia | reflexivity]. }
    assert (H3 : false || negb (n =? n) = false) by now rewrite Z.eqb_refl.
    run_directed.
    eapply run_weaken.
    { apply IH; [exact Hrest | |]; cbn; rewrite Hb;
        rewrite add64_small by (unfold in_int64, min_int64, max_int64 in *; lia);
        unfold max_int64 in *; lia. }
    intros r s2 evs2 (-> & Hb2 & Hw2). cbn in Hb2. rewrite Hb in Hb2.
    rewrite add64_small in Hb2
      by (unfold in_int64, min_int64, max_int64 in *; lia).
    unfold count_writes, delivered in *. rewrite Hread.
    destruct He as [-> | [d ->]]; cbn; rewrite Hw2; repeat split; lia.
Qed.

Lemma prepare_fresh (w : world) (limit : Z) (url : string)
    (hs : list (string * string)) (r1 : Response) :
  let name := fst (extractFilename (ParseMediaType w) r1) in
  request_valid w = true ->
  first_response w = (Some r1, None) ->
  StatusCode r1 = StatusOK \/ StatusCode r1 = StatusPartialContent ->
  Stat w name = None ->
  Create w name = None ->
  run (prepare w) (mkSt (newDownloadTask limit url hs) 0) (fun r s' evs =>
    r = Normal tt
    /\ evs = [EvDo None; EvStat name; EvCreate name; EvGoMonitorSpeed]
    /\ bytesRead (task s') = 0
    /\ totalFileSize (task s') = ContentLength r1
    /\ fileName (task s') = name
    /\ isResumable (task s') = false).
Proof.
  intros name Hreq Hfirst Hst Hstat Hcreate.
  pose proof (status_accepted r1 Hst) as Hst'. unfold name in *.
  run_directed.
  all: cbn in *; try congruence.
  all: destruct (ContentLength r1 >? 0); cbn in *; repeat split; congruence.
Qed.

(** X9.  A new task that finds no file of the derived name, creates it,
    and is served a body of full turns followed by the end of the stream
    ends with [io.EOF] as its error, a counter equal to the number of
    bytes delivered, one write per read, the declared content length as
    total size and the derived name as file name. *)
Theorem fresh_download_completes (w : world) (limit : Z) (url : string)
    (hs : list (string * string)) (r1 : Response) :
  let name := fst (extractFilename (ParseMediaType w) r1) in
  let o := start w (newDownloadTask limit url hs) in
  request_valid w = true ->
  first_response w = (Some r1, None) ->
  StatusCode r1 = StatusOK \/ StatusCode r1 = StatusPartialContent ->
  Stat w name = None ->
  Create w name = None ->
  Forall full_turn (body w) ->
  offered (body w) <= max_int64 ->
  error_ (final o) = Some io_EOF
  /\ bytesRead (final o) = offered (body w)
  /\ count_writes (trace o) = List.length (body w)
  /\ totalFileSize (final o) = ContentLength r1
  /\ fileName (final o) = name
  /\ escaped o = None.
Proof.
  intros name o Hreq Hfirst Hst Hstat Hcreate Hfull Hfits. subst o name.
  set (dt := newDownloadTask limit url hs).
  pose proof (prepare_fresh w limit url hs r1 Hreq Hfirst Hst Hstat Hcreate) as Hp.
  unfold run in Hp. fold dt in Hp.
  destruct (prepare w (mkSt dt 0)) as [[r s1] evs1] eqn:Hprep.
  cbn in Hp. destruct Hp as (-> & -> & Hb & Htot & Hname & _).
  destruct (start_through_loop w dt s1 _ eq_refl Hprep)
    as (r2 & s2 & evs2 & evs3 & Ht & -> & He & Hk & Herr & Hesc).
  pose proof (transfer_full w (body w) s1 Hfull ltac:(lia) ltac:(lia)) as Hloop.
  unfold run in Hloop. rewrite Ht in Hloop. cbn in Hloop.
  destruct Hloop as (-> & Hb2 & Hw2).
  pose proof (transfer_frame w (body w) s1) as Hf.
  unfold run in Hf. rewrite Ht in Hf. cbn in Hf.
  destruct Hf as (_ & [_ (_ & Htot2 & Hname2 & _)] & _).
  destruct Hk as (Hkb & Hkt & Hkn & _).
  split; [exact Herr |]. split; [rewrite Hkb, Hb2, Hb; lia |].
  split.
  { unfold count_writes in *. rewrite !filter_app, !List.length_app, Hw2.
    assert (Hz : List.length (filter is_write evs3) = 0%nat).
    { clear -He. induction He as [| e l H _ IH]; [reflexivity |].
      destruct e; simpl in *; try discriminate H; exact IH. }
    rewrite Hz. cbn. lia. }
  split; [congruence |]. split; [congruence | exact Hesc].
Qed.

Lemma fresh_download_completes_witness :
  bytesRead (final (start freshWorld freshTask)) = 100.
Proof.
  pose proof (fresh_download_completes freshWorld (-1)
                "http://host/dl/file.zip" [] (plainResponse "/dl/file.zip" 100)) as H.
  cbv zeta in H.
  assert (Hfull : Forall full_turn (body freshWorld)).
  { repeat constructor.
    - exists 60. repeat split; vm_compute; congruence.
    - exists 40. repeat split; vm_compute; congruence. }
  assert (Hfits : offered (body freshWorld) <= max_int64)
    by (vm_compute; discriminate).
  specialize (H eq_refl eq_refl (or_introl eq_refl) eq_refl eq_refl Hfull Hfits).
  destruct H as (_ & H & _). unfold freshTask. rewrite H. reflexivity.
Defined.

(** X10.  A task that resumes an existing file of [S] bytes and is served
    a body of full turns ends with [io.EOF] and a counter equal to [S]
    plus the bytes delivered; when the range response declared exactly
    the bytes it delivered, the counter ends equal to the total size. *)
Theorem resumed_download_completes (w : world) (limit : Z) (url : string)
    (hs : list (string * string)) (r1 r2 : Response) (info : FileInfo) :
  let name := fst (extractFilename (ParseMediaType w) r1) in
  let o := start w (newDownloadTask limit url hs) in
  request_valid w = true ->
  first_response w = (Some r1, None) ->
  StatusCode r1 = StatusOK \/ StatusCode r1 = StatusPartialContent ->
  Stat w name = Some info ->
  IsDir info = false ->
  Size info <> ContentLength r1 ->
  range_response w = (Some r2, None) ->
  StatusCode r2 = StatusOK \/ StatusCode r2 = StatusPartialContent ->
  Header r2 "Accept-Ranges" = "bytes" \/ Header r2 "Content-Range" <> "" ->
  OpenFile w name = None ->
  Forall full_turn (body w) ->
  0 <= Size info ->
  Size info + offered (body w) <= max_int64 ->
  error_ (final o) = Some io_EOF
  /\ bytesRead (final o) = Size info + offered (body w)
  /\ (0 < ContentLength r2 -> ContentLength r2 = offered (body w) ->
      bytesRead (final o) = totalFileSize (final o))
  /\ escaped o = None.
Proof.
  intros name o Hreq Hfirst Hst Hstat Hfile Hsize Hsecond Hst2 Hconf Hopen
    Hfull Hnonneg Hfits. subst o.
  set (dt := newDownloadTask limit url hs).
  pose proof (prepare_resumes w limit url hs r1 info Hreq Hfirst Hst Hstat
                Hfile Hsize r2 Hsecond Hst2 Hconf) as Hp.
  unfold run in Hp. fold dt in Hp.
  destruct (prepare w (mkSt dt 0)) as [[r s1] evs1] eqn:Hprep.
  cbn in Hp. destruct Hp as (rest & _ & Hp).
  destruct (Hp Hopen) as (-> & _ & Hb & _ & Htot).
  destruct (start_through_loop w dt s1 _ eq_refl Hprep)
    as (r3 & s2 & evs2 & evs3 & Ht & _ & _ & Hk & Herr & Hesc).
  pose proof (transfer_full w (body w) s1 Hfull ltac:(lia) ltac:(lia)) as Hloop.
  unfold run in Hloop. rewrite Ht in Hloop. cbn in Hloop.
  destruct Hloop as (-> & Hb2 & _).
  pose proof (transfer_frame w (body w) s1) as Hf.
  unfold run in Hf. rewrite Ht in Hf. cbn in Hf.
  destruct Hf as (_ & [_ (_ & Htot2 & _)] & _).
  destruct Hk as (Hkb & Hkt & _).
  split; [exact Herr |]. split; [rewrite Hkb, Hb2, Hb; reflexivity |].
  split; [| exact Hesc].
  intros Hpos Hcl. rewrite Hkb, Hkt, Hb2, Hb, Htot2, Htot.
  destruct (Z.gtb_spec (ContentLength r2) 0); [| lia].
  rewrite add64_small by (unfold in_int64, min_int64, max_int64 in *; lia).
  lia.
Qed.

Lemma resumed_download_completes_witness :
  bytesRead (final (start resumeWorld freshTask)) = 10 + 90.
Proof.
  pose proof (resumed_download_completes resumeWorld (-1)
                "http://host/dl/file.zip" [] (plainResponse "/dl/file.zip" 100)
                (partialResponse "/dl/file.zip" 90) (mkFileInfo false 10)) as H.
  cbv zeta in H.
  assert (Hne : Size (mkFileInfo false 10)
                <> ContentLength (plainResponse "/dl/file.zip" 100))
    by (vm_compute; discriminate).
  assert (Hc : Header (partialResponse "/dl/file.zip" 90) "Accept-Ranges" = "bytes"
               \/ Header (partialResponse "/dl/file.zip" 90) "Content-Range" <> "")
    by (right; vm_compute; discriminate).
  assert (Hfull : Forall full_turn (body resumeWorld)).
  { repeat constructor.
    - exists 60. repeat split; vm_compute; congruence.
    - exists 30. repeat split; vm_compute; congruence. }
  assert (H0 : 0 <= Size (mkFileInfo false 10)) by (vm_compute; discriminate).
  assert (Hfits : Size (mkFileInfo false 10) + offered (body resumeWorld)
                  <= max_int64) by (vm_compute; discriminate).
  specialize (H eq_refl eq_refl (or_introl eq_refl) eq_refl eq_refl Hne eq_refl
                (or_intror eq_refl) Hc eq_refl Hfull H0 Hfits).
  destruct H as (_ & H & _). unfold freshTask. rewrite H. reflexivity.
Defined.

(** ** Read errors that come with data *)

Lemma transfer_data_error_step (w : world) (turn : iteration)
    (rest : list iteration) (n : Z) (e : error) (s : st) :
  it_read turn = Returns (n, Some e) ->
  0 < n ->
  transfer w (turn :: rest) s
  = transfer w (mkIteration (Returns (n, None)) (it_write turn) :: rest) s.
Proof.
  intros Hread Hn. apply Z.gtb_lt in Hn.
  cbn [transfer it_read it_write]. rewrite Hread.
  unfold bind. destruct (limiterWait w s) as [[[[] | | v] s1] evs1];
    try reflexivity.
  cbn. rewrite Hn. reflexivity.
Qed.

Lemma transfer_cons_ext (w w' : world) (turn : iteration)
    (l l' : list iteration) (s : st) :
  clock w' = clock w ->
  (forall s', transfer w' l' s' = transfer w l s') ->
  transfer w' (turn :: l') s = transfer w (turn :: l) s.
Proof.
  intros Hclock Hrest. cbn [transfer].
  assert (Hw : limiterWait w' s = limiterWait w s)
    by (unfold limiterWait; now rewrite Hclock).
  unfold bind. rewrite Hw.
  destruct (limiterWait w s) as [[[[] | | v] s1] evs1]; try reflexivity.
  repeat (cbn;
          match goal with
          | |- context [match ?x with _ => _ end] =>
              lazymatch x with
              | context [match _ with _ => _ end] => fail
              | context [transfer] => fail
              | _ => destruct x
              end
          end);
    cbn; rewrite ?Hrest; reflexivity.
Qed.

Lemma transfer_without_data_errors (w : world) (turns turns' : list iteration) :
  forall s,
    transfer (with_body w turns') (map without_data_error turns) s
    = transfer w turns s.
Proof.
  induction turns as [| turn rest IH]; intros s.
  - cbn [map transfer]. unfold bind.
    change (limiterWait (with_body w turns') s) with (limiterWait w s).
    reflexivity.
  - cbn [map]. unfold without_data_error at 1.
    destruct (it_read turn) as [[n [e |]] | v] eqn:Hread;
      try (apply transfer_cons_ext; [reflexivity | exact IH]).
    destruct (Z.gtb_spec n 0) as [Hn | Hn];
      [| apply transfer_cons_ext; [reflexivity | exact IH]].
    rewrite (transfer_data_error_step w turn rest n e s Hread Hn).
    apply transfer_cons_ext; [reflexivity | exact IH].
Qed.

(** X11.  An error that [Read] returns together with data has no effect
    on a run: the data is written and counted, and the loop goes on to
    the next read as if no error had been returned. *)
Theorem start_ignores_errors_with_data (w : world) (dt : downloadTask) :
  start (with_body w (map without_data_error (body w))) dt = start w dt.
Proof.
  set (w' := with_body w (map without_data_error (body w))).
  assert (Hp : forall s, prepare w' s = prepare w s) by reflexivity.
  assert (Hl : forall s, transfer w' (body w') s = transfer w (body w) s)
    by (intros s; apply transfer_without_data_errors).
  unfold start, start_body, bind. rewrite Hp.
  destruct (prepare w (mkSt dt 0)) as [[[[] | | v] s1] evs1];
    rewrite ?Hl; reflexivity.
Qed.

(** ** The columns of the display *)

Lemma substring_prefix_length (n : nat) (s : string) :
  (n <= String.length s)%nat -> String.length (substring 0 n s) = n.
Proof.
  revert s. induction n as [| n IH]; intros s H.
  - destruct s; reflexivity.
  - destruct s as [| c r]; simpl in *; [lia |]. rewrite IH; lia.
Qed.

Lemma repeat_char_length (c : ascii) (n : nat) :
  String.length (repeat_char c n) = n.
Proof. induction n as [| n IH]; simpl; [reflexivity | now rewrite IH]. Qed.

Lemma len_app (a b : string) : len (a ++ b) = len a + len b.
Proof. unfold len. rewrite string_length_app. lia. Qed.

Lemma len_Repeat (c : ascii) (count : Z) :
  0 <= count -> len (Repeat c count) = count.
Proof. intros H. unfold len, Repeat. rewrite repeat_char_length. lia. Qed.

Lemma sub64_small (a b : Z) : in_int64 (a - b) -> sub64 a b = a - b.
Proof. apply wrap64_id. Qed.

(** X12.  A name with as many runes as bytes comes out of
    [truncateFileName] exactly [maxWidth] bytes long: followed by spaces
    when it is shorter, cut to its first [maxWidth] bytes otherwise. *)
Theorem truncateFileName_plain_width (lib : textLib) (fileName : string)
    (maxWidth : Z) :
  0 <= maxWidth <= max_int64 ->
  Z.of_nat (List.length (runesOf lib fileName)) = len fileName ->
  exists display,
    truncateFileName lib fileName maxWidth = Returns display
    /\ len display = maxWidth
    /\ display
       = if len fileName <? maxWidth
         then fileName ++ Repeat " " (maxWidth - len fileName)
         else substring 0 (Z.to_nat maxWidth) fileName.
Proof.
  intros Hw Hrunes. unfold truncateFileName.
  assert (Hlen : 0 <= len fileName) by (unfold len; lia).
  destruct (Z.ltb_spec (len fileName) maxWidth) as [Hshort | Hlong].
  - rewrite sub64_small
      by (unfold in_int64, min_int64, max_int64 in *; lia).
    eexists. split; [reflexivity |]. split; [| reflexivity].
    rewrite len_app, len_Repeat by lia. lia.
  - rewrite Hrunes, Z.eqb_refl. cbn [negb]. unfold slice_to.
    destruct (Z.leb_spec 0 maxWidth); [| lia].
    destruct (Z.leb_spec maxWidth (len fileName)); [| lia]. cbn [andb].
    eexists. split; [reflexivity |]. split; [| reflexivity].
    unfold len in *. rewrite substring_prefix_length by lia. lia.
Qed.

Lemma truncateFileName_plain_width_witness :
  truncateFileName plainText "a-rather-long-archive-name.tar.gz" 20
  = Returns "a-rather-long-archiv".
Proof.
  destruct (truncateFileName_plain_width plainText
              "a-rather-long-archive-name.tar.gz" 20
              ltac:(unfold max_int64; lia) eq_refl) as (d & -> & _ & ->).
  reflexivity.
Defined.

Lemma truncateRunes_longest (lib : textLib) (runes : list Z) (maxWidth : Z)
    (k : nat) :
  visibleWidth lib (stringOf lib []) <= maxWidth ->
  exists j,
    (j <= k)%nat
    /\ truncateRunes lib runes maxWidth k
       = Returns (stringOf lib (firstn j runes)
                  ++ Repeat " " (sub64 maxWidth
                                   (visibleWidth lib (stringOf lib (firstn j runes)))))
    /\ visibleWidth lib (stringOf lib (firstn j runes)) <= maxWidth
    /\ forall i, (j < i <= k)%nat ->
                 maxWidth < visibleWidth lib (stringOf lib (firstn i runes)).
Proof.
  intros Hempty. induction k as [| k IH]; cbn [truncateRunes].
  - exists 0%nat. cbn [firstn].
    destruct (Z.leb_spec (visibleWidth lib (stringOf lib [])) maxWidth); [| lia].
    repeat split; try assumption; lia.
  - destruct (Z.leb_spec (visibleWidth lib (stringOf lib (firstn (S k) runes)))
                maxWidth) as [Hfit | Hwide].
    + exists (S k). repeat split; try assumption; lia.
    + destruct IH as (j & Hj & -> & Hfit & Hmax).
      exists j. repeat split; try assumption; [lia |].
      intros i Hi. destruct (Nat.eq_dec i (S k)) as [-> | Hne];
        [exact Hwide | apply Hmax; lia].
Qed.

(** X13.  For a name whose runes are fewer than its bytes and that does
    not fit, [truncateFileName] keeps the longest run of leading runes
    whose visible width is at most [maxWidth], followed by the spaces
    that make up the width; it returns, provided the empty string is not
    wider than [maxWidth]. *)
Theorem truncateFileName_wide_name (lib : textLib) (fileName : string)
    (maxWidth : Z) :
  maxWidth <= len fileName ->
  Z.of_nat (List.length (runesOf lib fileName)) <> len fileName ->
  visibleWidth lib (stringOf lib []) <= maxWidth ->
  exists j,
    let kept := stringOf lib (firstn j (runesOf lib fileName)) in
    (j <= List.length (runesOf lib fileName))%nat
    /\ truncateFileName lib fileName maxWidth
       = Returns (kept ++ Repeat " " (sub64 maxWidth (visibleWidth lib kept)))
    /\ visibleWidth lib kept <= maxWidth
    /\ forall i, (j < i <= List.length (runesOf lib fileName))%nat ->
         maxWidth
         < visibleWidth lib (stringOf lib (firstn i (runesOf lib fileName))).
Proof.
  intros Hlong Hrunes Hempty. unfold truncateFileName.
  destruct (Z.ltb_spec (len fileName) maxWidth); [lia |].
  apply Z.eqb_neq in Hrunes. rewrite Hrunes. cbn [negb].
  apply truncateRunes_longest. exact Hempty.
Qed.

Lemma truncateFileName_wide_name_witness :
  exists j, (j <= 4)%nat
    /\ truncateFileName twoByteText "aabbccdd" 3 = Returns "aabbcc".
Proof.
  destruct (truncateFileName_wide_name twoByteText "aabbccdd" 3
              ltac:(vm_compute; discriminate) ltac:(vm_compute; discriminate)
              ltac:(vm_compute; discriminate)) as (j & Hj & _ & _ & _).
  exists j. split; [exact Hj | reflexivity].
Defined.

Lemma fmt_7d_small (size : Z) :
  0 <= size < Kilobyte -> String.length (fmt_7d size) = 7%nat.
Proof.
  intros H.
  assert (Hall : forallb
            (fun n => Nat.eqb (String.length (fmt_7d (Z.of_nat n))) 7)
            (seq 0 1024) = true) by (vm_compute; reflexivity).
  rewrite forallb_forall in Hall.
  specialize (Hall (Z.to_nat size)).
  rewrite Z2Nat.id in Hall by lia. apply Nat.eqb_eq, Hall.
  apply in_seq. unfold Kilobyte in H. lia.
Qed.

(** X14.  A size below 1024 bytes is written as the number of bytes,
    right-justified, followed by ["B"]: eight characters in all. *)
Theorem humanReadableSize_bytes (lib : textLib) (size : Z) :
  0 <= size < Kilobyte ->
  humanReadableSize lib size = fmt_7d size ++ "B"
  /\ String.length (humanReadableSize lib size) = 8%nat.
Proof.
  intros H. unfold humanReadableSize.
  assert (Hk : (size >=? Kilobyte) = false)
    by (destruct (Z.geb_spec size Kilobyte); [lia | reflexivity]).
  assert (Hm : (size >=? Megabyte) = false)
    by (destruct (Z.geb_spec size Megabyte);
        [unfold Megabyte, Kilobyte in *; lia | reflexivity]).
  assert (Hg : (size >=? Gigabyte) = false)
    by (destruct (Z.geb_spec size Gigabyte);
        [unfold Gigabyte, Megabyte, Kilobyte in *; lia | reflexivity]).
  assert (Ht : (size >=? Terabyte) = false)
    by (destruct (Z.geb_spec size Terabyte);
        [unfold Terabyte, Gigabyte, Megabyte, Kilobyte in *; lia | reflexivity]).
  rewrite Ht, Hg, Hm, Hk. split; [reflexivity |].
  rewrite string_length_app, fmt_7d_small by exact H. reflexivity.
Qed.

Lemma humanReadableSize_bytes_witness :
  humanReadableSize plainText 512 = "    512B".
Proof.
  destruct (humanReadableSize_bytes plainText 512
              ltac:(unfold Kilobyte; lia)) as [-> _].
  reflexivity.
Defined.

(** X15.  With a known terminal width, a line whose visible width is
    its length in bytes is printed exactly as wide as the terminal: cut
    when it is wider, followed by spaces when it is narrower. *)
Theorem fitWidth_exact (lib : textLib) (terminalWidth : Z) (output : string) :
  0 <= terminalWidth <= max_int64 ->
  visibleWidth lib output = len output ->
  exists line,
    fitWidth lib true terminalWidth output = Returns line
    /\ len line = terminalWidth
    /\ line
       = if len output <? terminalWidth
         then output ++ Repeat " " (terminalWidth - len output)
         else substring 0 (Z.to_nat terminalWidth) output.
Proof.
  intros Hw Hplain. unfold fitWidth. rewrite Hplain.
  assert (Hlen : 0 <= len output) by (unfold len; lia).
  destruct (Z.gtb_spec (len output) terminalWidth) as [Hwide | Hfit].
  - unfold slice_to.
    destruct (Z.leb_spec 0 terminalWidth); [| lia].
    destruct (Z.leb_spec terminalWidth (len output)); [| lia]. cbn [andb].
    destruct (Z.ltb_spec (len output) terminalWidth); [lia |].
    eexists. split; [reflexivity |]. split; [| reflexivity].
    unfold len in *. rewrite substring_prefix_length by lia. lia.
  - destruct (Z.ltb_spec (len output) terminalWidth) as [Hnarrow | Heq].
    + rewrite sub64_small
        by (unfold in_int64, min_int64, max_int64 in *; lia).
      eexists. split; [reflexivity |]. split; [| reflexivity].
      rewrite len_app, len_Repeat by lia. lia.
    + assert (E : len output = terminalWidth) by lia.
      eexists. split; [reflexivity |]. split; [exact E |].
      rewrite <- E. unfold len. rewrite Nat2Z.id.
      clear. induction output as [| c r IH]; [reflexivity |].
      simpl. now rewrite <- IH.
Qed.

Lemma fitWidth_exact_witness :
  fitWidth plainText true 14 "Waiting..." = Returns "Waiting...    ".
Proof.
  destruct (fitWidth_exact plainText 14 "Waiting..."
              ltac:(unfold max_int64; lia) eq_refl) as (l & -> & _ & ->).
  reflexivity.
Defined.

(** ** What the display shows for a run *)

Lemma substring_whole (s : string) : substring 0 (String.length s) s = s.
Proof. induction s as [| c r IH]; [reflexivity |]. simpl. now rewrite IH. Qed.

(** The line that is printed for a line whose visible width is its
    length in bytes, on a terminal of known width. *)
Lemma fitWidth_plain (lib : textLib) (terminalWidth : Z) (output : string) :
  0 <= terminalWidth <= max_int64 ->
  visibleWidth lib output = len output ->
  fitWidth lib true terminalWidth output
  = Returns (if len output <? terminalWidth
             then output ++ Repeat " " (terminalWidth - len output)
             else substring 0 (Z.to_nat terminalWidth) output).
Proof.
  intros Hw Hplain. unfold fitWidth. rewrite Hplain.
  assert (Hlen : 0 <= len output) by (unfold len; lia).
  destruct (Z.gtb_spec (len output) terminalWidth) as [Hwide | Hfit].
  - unfold slice_to.
    destruct (Z.leb_spec 0 terminalWidth); [| lia].
    destruct (Z.leb_spec terminalWidth (len output)); [| lia]. cbn [andb].
    destruct (Z.ltb_spec (len output) terminalWidth); [lia | reflexivity].
  - destruct (Z.ltb_spec (len output) terminalWidth) as [Hnarrow | Heq].
    + now rewrite sub64_small
        by (unfold in_int64, min_int64, max_int64 in *; lia).
    + assert (E : terminalWidth = len output) by lia.
      rewrite E. unfold len. now rewrite Nat2Z.id, substring_whole.
Qed.

(** What [updateTerminal] prints for a single task. *)
Lemma updateTerminal_single (lib : textLib) (hasWidth : bool)
    (task : downloadTask) (terminalWidth : Z) (output line : string) :
  taskLine lib hasWidth task terminalWidth = Returns output ->
  fitWidth lib hasWidth terminalWidth output = Returns line ->
  updateTerminal lib hasWidth [task] terminalWidth = ([line], None).
Proof.
  intros Hline Hfit. cbn [updateTerminal]. unfold renderTask.
  rewrite Hline. cbn [call_bind]. now rewrite Hfit.
Qed.

Lemma rejected_request_final (w : world) (limit : Z) (url : string)
    (hs : list (string * string)) :
  let o := start w (newDownloadTask limit url hs) in
  request_valid w = true ->
  (forall r, first_response w = (Some r, None) ->
             StatusCode r <> StatusOK /\ StatusCode r <> StatusPartialContent) ->
  error_ (final o) = Some (requestError (first_response w))
  /\ fileName (final o) = "".
Proof.
  intros o Hreq Hfail. subst o. unfold_run. rewrite Hreq. cbn.
  destruct (first_response w) as [[r |] [err |]] eqn:Hfirst; cbn;
    try (repeat split; fail).
  destruct (Hfail r eq_refl) as [H1 H2].
  apply Z.eqb_neq in H1, H2. rewrite H1, H2. cbn. repeat split.
Qed.

(** X16.  For a task whose first request was not accepted,
    [updateTerminal] prints ["Error: "] followed by the message of its
    error, without a file name: the message with the status when a
    response came, the message of the nil dereference when none came.
    Without a known terminal width the line is printed as it is; with
    one, a line whose visible width is its length is cut to that width
    when it is longer and followed by spaces when it is shorter. *)
Theorem rejected_request_line (lib : textLib) (terminalWidth : Z)
    (w : world) (limit : Z) (url : string) (hs : list (string * string)) :
  let o := start w (newDownloadTask limit url hs) in
  let line :=
    "Error: "
    ++ match fst (first_response w) with
       | Some r => "HTTP request failed with status: " ++ itoa (StatusCode r)
       | None =>
           "runtime error: invalid memory address or nil pointer dereference"
       end in
  request_valid w = true ->
  (forall r, first_response w = (Some r, None) ->
             StatusCode r <> StatusOK /\ StatusCode r <> StatusPartialContent) ->
  updateTerminal lib false [final o] terminalWidth = ([line], None)
  /\ (0 <= terminalWidth <= max_int64 ->
      visibleWidth lib line = len line ->
      updateTerminal lib true [final o] terminalWidth
      = ([if len line <? terminalWidth
          then line ++ Repeat " " (terminalWidth - len line)
          else substring 0 (Z.to_nat terminalWidth) line], None)).
Proof.
  intros o line Hreq Hfail.
  destruct (rejected_request_final w limit url hs Hreq Hfail) as [Herr Hname].
  fold o in Herr, Hname.
  assert (Hline : forall hasWidth,
            taskLine lib hasWidth (final o) terminalWidth = Returns line).
  { intros hasWidth. unfold taskLine, shownError. rewrite Herr, Hname.
    unfold line, requestError. destruct (fst (first_response w)); reflexivity. }
  split.
  - apply (updateTerminal_single lib false (final o) terminalWidth line line);
      [apply Hline | reflexivity].
  - intros Hw Hplain.
    apply (updateTerminal_single lib true (final o) terminalWidth line);
      [apply Hline | now apply fitWidth_plain].
Qed.

Lemma rejected_request_line_witness :
  updateTerminal plainText false [final (start notFoundWorld freshTask)] 10
  = (["Error: HTTP request failed with status: 404"], None)
  /\ updateTerminal plainText true [final (start notFoundWorld freshTask)] 10
     = (["Error: HTT"], None).
Proof.
  pose proof (rejected_request_line plainText 10 notFoundWorld (-1)
                "http://host/dl/file.zip" []) as H.
  cbv zeta in H.
  assert (Hbad : forall r,
             first_response notFoundWorld = (Some r, None) ->
             StatusCode r <> StatusOK /\ StatusCode r <> StatusPartialContent).
  { intros r Hr. inversion Hr; subst. split; vm_compute; discriminate. }
  destruct (H eq_refl Hbad) as [Hfree Hfit].
  assert (Hw : 0 <= 10 <= max_int64) by (unfold max_int64; lia).
  specialize (Hfit Hw eq_refl).
  unfold freshTask. split.
  - rewrite Hfree. vm_compute. reflexivity.
  - rewrite Hfit. vm_compute. reflexivity.
Defined.

(** X17.  A task whose destination could not be created has closed its
    completion channel, and [updateTerminal] prints ["Waiting..."] for
    it, since it has neither an error nor a byte read: as it is without
    a known terminal width and, with one, cut to that width or followed
    by spaces when ["Waiting..."] counts for ten columns. *)
Theorem failed_create_line (lib : textLib) (terminalWidth : Z)
    (w : world) (limit : Z) (url : string)
    (hs : list (string * string)) (r1 : Response) (e : error) :
  let name := fst (extractFilename (ParseMediaType w) r1) in
  let o := start w (newDownloadTask limit url hs) in
  request_valid w = true ->
  first_response w = (Some r1, None) ->
  StatusCode r1 = StatusOK \/ StatusCode r1 = StatusPartialContent ->
  Stat w name = None ->
  Create w name = Some e ->
  completionClosed (final o) = true
  /\ updateTerminal lib false [final o] terminalWidth = (["Waiting..."], None)
  /\ (0 <= terminalWidth <= max_int64 ->
      visibleWidth lib "Waiting..." = 10 ->
      updateTerminal lib true [final o] terminalWidth
      = ([if 10 <? terminalWidth
          then "Waiting..." ++ Repeat " " (terminalWidth - 10)
          else substring 0 (Z.to_nat terminalWidth) "Waiting..."], None)).
Proof.
  intros name o Hreq Hfirst Hst Hstat Hcreate.
  pose proof (status_accepted r1 Hst) as Hst'. unfold name in *.
  assert (Hfinal : completionClosed (final o) = true
                   /\ forall hasWidth,
                        taskLine lib hasWidth (final o) terminalWidth
                        = Returns "Waiting...").
  { subst o. unfold taskLine, shownError, getBytesRead.
    unfold_run. rewrite Hreq. cbn. rewrite Hfirst. cbn. rewrite Hst'. cbn.
    rewrite Hstat. cbn. rewrite Hcreate. cbn. split; reflexivity. }
  destruct Hfinal as [Hclosed Hline].
  split; [exact Hclosed |]. split.
  - apply (updateTerminal_single lib false (final o) terminalWidth
             "Waiting..." "Waiting..."); [apply Hline | reflexivity].
  - intros Hw Hplain.
    apply (updateTerminal_single lib true (final o) terminalWidth "Waiting...");
      [apply Hline |].
    now rewrite (fitWidth_plain lib terminalWidth "Waiting..." Hw Hplain).
Qed.

Lemma failed_create_line_witness :
  updateTerminal plainText false [final (start createFailsWorld freshTask)] 4
  = (["Waiting..."], None)
  /\ updateTerminal plainText true [final (start createFailsWorld freshTask)] 4
     = (["Wait"], None).
Proof.
  pose proof (failed_create_line plainText 4 createFailsWorld (-1)
                "http://host/dl/file.zip" [] (plainResponse "/dl/file.zip" 100)
                (externalError "permission denied")) as H.
  cbv zeta in H.
  specialize (H eq_refl eq_refl (or_introl eq_refl) eq_refl eq_refl).
  destruct H as (_ & Hfree & Hfit).
  assert (Hw : 0 <= 4 <= max_int64) by (unfold max_int64; lia).
  specialize (Hfit Hw eq_refl).
  unfold freshTask. split; [exact Hfree |].
  rewrite Hfit. vm_compute. reflexivity.
Defined.

(** X18.  On a terminal too narrow for the name column, the size and
    the ETA, the line of a task with progress and a known total size is
    not drawn: the code slices the still empty line to the terminal
    width, which panics with the bounds [[:width] with length 0]. *)
Theorem narrow_terminal_panics (lib : textLib) (task : downloadTask)
    (terminalWidth : Z) (fileNameInfo eta : string) :
  let width := visibleWidth lib (fileSizeInfo lib task ++ etaInfo lib task eta) in
  shownError task = None ->
  0 < getBytesRead task ->
  0 < totalFileSize task ->
  truncateFileName lib (fileName task) displayFileNameLength
  = Returns fileNameInfo ->
  getETAString task = Returns eta ->
  0 <= width ->
  width + displayFileNameLength <= max_int64 ->
  0 < terminalWidth < width + displayFileNameLength ->
  renderTask lib true task terminalWidth
  = Panics (slice_out_of_range
              ("[:" ++ itoa terminalWidth ++ "] with length 0")).
Proof.
  intros width Hshown Hread Htotal Hname Heta Hwidth Hmax Hnarrow.
  unfold renderTask, taskLine. rewrite Hshown.
  destruct (Z.gtb_spec (getBytesRead task) 0); [| lia].
  rewrite Hname. cbn [call_bind]. rewrite Heta. cbn [call_bind].
  destruct (Z.gtb_spec (totalFileSize task) 0); [| lia]. cbn [andb].
  fold width. unfold displayFileNameLength in *.
  rewrite !sub64_small
    by (rewrite ?sub64_small;
        unfold in_int64, min_int64, max_int64 in *; lia).
  destruct (Z.gtb_spec (terminalWidth - width - 20) 4); [lia |].
  destruct (Z.ltb_spec (terminalWidth - width - 20) 0); [| lia].
  unfold slice_to.
  destruct (Z.leb_spec terminalWidth (len "")) as [Hle |];
    [cbn in Hle; lia |].
  rewrite andb_false_r.
  destruct (Z.ltb_spec terminalWidth 0); [lia | reflexivity].
Qed.

Lemma narrow_terminal_panics_witness :
  renderTask plainText true runningTask 40
  = Panics (slice_out_of_range "[:40] with length 0").
Proof.
  apply (narrow_terminal_panics plainText runningTask 40
           "file.zip            " " 8m30s");
    try reflexivity; vm_compute; try discriminate; split; reflexivity.
Defined.

(** ** The last element of the derived name *)

Lemma list_ascii_of_string_app (a b : string) :
  list_ascii_of_string (a ++ b)
  = (list_ascii_of_string a ++ list_ascii_of_string b)%list.
Proof. induction a as [| c r IH]; simpl; [reflexivity | now rewrite IH]. Qed.

Lemma split_slash_app (a b : chars) :
  split_slash (a ++ slash :: b)%list = (split_slash a ++ split_slash b)%list.
Proof.
  induction a as [| c r IH]; [reflexivity |].
  cbn [app split_slash]. destruct (is_slash c); [now rewrite IH |].
  rewrite IH. destruct (split_slash r) as [| h t] eqn:E; [| reflexivity].
  now destruct (split_slash_nonempty r).
Qed.

Lemma Base_Clean_last (dir name : chars) :
  real_element name -> ~ In slash name ->
  Base_chars (Clean_chars (slash :: dir ++ slash :: name)%list) = name.
Proof.
  intros (Hne & Hdot & Hdd) Hs. unfold Clean_chars.
  change (is_slash slash) with true. cbv iota.
  change (slash :: dir ++ slash :: name)%list
    with ((slash :: dir) ++ slash :: name)%list.
  rewrite split_slash_app, (split_slash_plain name Hs), fold_left_app.
  cbn [fold_left].
  set (stack := fold_left (clean_element true) (split_slash (slash :: dir)) []).
  assert (Hstep : clean_element true stack name = name :: stack).
  { unfold clean_element. destruct name as [| c r]; [congruence |].
    apply chars_eqb_neq in Hdot, Hdd. now rewrite Hdot, Hdd. }
  rewrite Hstep. cbn [rev].
  apply (Base_chars_rooted (rev stack) name Hne Hs).
Qed.

(** X19.  The name of the file is the last element of the derived name:
    when the derived name is a directory part, a slash and a single path
    element, that element is accepted and returned, whatever the
    directory part contains apart from NUL. *)
Theorem extractFilename_last_element (parse : MediaTypeParser)
    (response : Response) (dir name : string) :
  derivedName parse response = dir ++ "/" ++ name ->
  Contains_NUL dir = false ->
  single_component name ->
  extractFilename parse response = (name, None).
Proof.
  intros Hd Hdir (Hne & Hdot & Hdd & Hslash & Hnul). unfold extractFilename.
  rewrite Hd.
  assert (Hchars : list_ascii_of_string (dir ++ "/" ++ name)
                   = (list_ascii_of_string dir
                      ++ slash :: list_ascii_of_string name)%list)
    by now rewrite list_ascii_of_string_app.
  assert (Hl : list_ascii_of_string name <> []).
  { intros E. apply Hne. apply (f_equal string_of_list_ascii) in E.
    now rewrite string_of_list_ascii_of_string in E. }
  assert (E1 : String.eqb (dir ++ "/" ++ name) "" = false).
  { apply String.eqb_neq. intros E.
    apply (f_equal list_ascii_of_string) in E. rewrite Hchars in E.
    now destruct (list_ascii_of_string dir). }
  assert (E2 : HasSuffix_slash (dir ++ "/" ++ name) = false).
  { unfold HasSuffix_slash. rewrite Hchars, rev_app_distr. cbn [rev].
    destruct (rev (list_ascii_of_string name)) as [| c r] eqn:Hr.
    - apply (f_equal (@rev ascii)) in Hr. rewrite rev_involutive in Hr.
      contradiction.
    - cbn. destruct (is_slash c) eqn:Hc; [| reflexivity].
      apply is_slash_true in Hc. subst c. exfalso. apply Hslash.
      apply in_rev. rewrite Hr. now left. }
  assert (E3 : Contains_NUL (dir ++ "/" ++ name) = false).
  { unfold Contains_NUL in *. rewrite Hchars, existsb_app, Hdir. cbn.
    apply not_true_is_false. intros H.
    apply existsb_exists in H. destruct H as (c & Hin & Hc).
    apply Ascii.eqb_eq in Hc. subst c. contradiction. }
  rewrite E1, E2, E3. cbn [orb].
  assert (Hback : filepath_Base (path_Clean ("/" ++ dir ++ "/" ++ name)) = name).
  { unfold filepath_Base, path_Clean.
    rewrite list_ascii_of_string_of_list_ascii.
    change (list_ascii_of_string ("/" ++ dir ++ "/" ++ name))
      with (slash :: list_ascii_of_string (dir ++ "/" ++ name)).
    rewrite Hchars, Base_Clean_last;
      [apply string_of_list_ascii_of_string | | exact Hslash].
    repeat split; [exact Hl | |]; intros E;
      apply (f_equal string_of_list_ascii) in E;
      rewrite string_of_list_ascii_of_string in E; auto. }
  rewrite Hback.
  assert (E4 : String.eqb name "" = false) by now apply String.eqb_neq.
  assert (E5 : String.eqb name "." = false) by now apply String.eqb_neq.
  assert (E6 : String.eqb name "/" = false).
  { apply String.eqb_neq. intros ->. apply Hslash. now left. }
  now rewrite E4, E5, E6.
Qed.

Lemma extractFilename_last_element_witness :
  extractFilename noParse (plainResponse ("/dl/../x" ++ "/" ++ "file.zip") 100)
  = ("file.zip", None).
Proof.
  apply (extractFilename_last_element noParse _ "/dl/../x" "file.zip");
    [reflexivity | reflexivity |].
  repeat split; try discriminate; vm_compute; intuition discriminate.
Defined.

(** ** The repaint *)

(** X20.  [updateTerminal] prints the lines of the tasks in order and
    stops at the first task whose line panics: the lines of the tasks
    before it are printed, none after it. *)
Theorem updateTerminal_stops_at_panic (lib : textLib) (hasWidth : bool)
    (terminalWidth : Z) (before after : list downloadTask)
    (task : downloadTask) (v : panicValue) (lines : list string) :
  Forall2 (fun t line => renderTask lib hasWidth t terminalWidth = Returns line)
    before lines ->
  renderTask lib hasWidth task terminalWidth = Panics v ->
  updateTerminal lib hasWidth (before ++ task :: after) terminalWidth
  = (lines, Some v).
Proof.
  intros Hbefore Hpanic.
  induction Hbefore as [| t line ts ls Ht _ IH]; cbn [app updateTerminal].
  - now rewrite Hpanic.
  - now rewrite Ht, IH.
Qed.

Lemma updateTerminal_stops_at_panic_witness :
  updateTerminal plainText true [freshTask; runningTask; freshTask] 40
  = (["Waiting...                              "],
     Some (slice_out_of_range "[:40] with length 0")).
Proof.
  apply (updateTerminal_stops_at_panic plainText true 40 [freshTask]
           [freshTask] runningTask (slice_out_of_range "[:40] with length 0")
           ["Waiting...                              "]).
  - repeat constructor.
  - reflexivity.
Defined.

(** X21.  With a known total, a counter not beyond it and a throughput
    of at least one byte per second, [getETAString] returns, and what it
    returns is the remaining bytes divided by the whole part of the
    throughput, written as a duration. *)
Theorem getETAString_remaining (dt : downloadTask) :
  0 <= getBytesRead dt <= totalFileSize dt ->
  0 < totalFileSize dt <= max_int64 ->
  (1 <= bytesPerSecond dt)%Q ->
  getETAString dt
  = Returns (durationToString
               ((totalFileSize dt - getBytesRead dt)
                / int64_of_float (bytesPerSecond dt))).
Proof.
  intros Hread Htotal Hbps.
  rewrite getETAString_quotient by (try lia; exact Hbps).
  assert (Hdiv : 1 <= int64_of_float (bytesPerSecond dt)).
  { unfold int64_of_float. destruct (bytesPerSecond dt) as [num den].
    unfold Qle in Hbps. simpl in *.
    apply Z.quot_le_lower_bound; lia. }
  unfold quot64, sub64.
  rewrite (wrap64_id (totalFileSize dt - getBytesRead dt))
    by (unfold in_int64, min_int64, max_int64 in *; lia).
  rewrite Z.quot_div_nonneg by lia.
  rewrite wrap64_id; [reflexivity |].
  unfold in_int64, min_int64, max_int64 in *.
  pose proof (Z.div_le_upper_bound (totalFileSize dt - getBytesRead dt)
                (int64_of_float (bytesPerSecond dt)) (2 ^ 63 - 1)
                ltac:(lia) ltac:(nia)).
  pose proof (Z.div_pos (totalFileSize dt - getBytesRead dt)
                (int64_of_float (bytesPerSecond dt)) ltac:(lia) ltac:(lia)).
  lia.
Qed.

Lemma getETAString_remaining_witness :
  getETAString runningTask = Returns " 8m30s".
Proof.
  rewrite getETAString_remaining; [reflexivity | | |].
  - vm_compute. split; discriminate.
  - vm_compute. split; [reflexivity | discriminate].
  - unfold Qle. simpl. lia.
Defined.
